(** * Lease fact extraction: a shallow embedding of [app/main.py]

    The development follows the source file top-down:
    - [PyStr]    : the [str] methods the program calls ([strip], [splitlines]);
    - [Re]       : the fragment of Python's [re] engine that the program's
                   fourteen patterns exercise (backtracking, leftmost match,
                   greedy and lazy quantifiers, one capturing group);
    - [Patterns] : the fourteen patterns, one definition per literal;
    - [Lease]    : [_normalize_date], [_first_match],
                   [_extract_address_and_suite],
                   [_extract_lease_facts_from_text], [LEASE_FACTS_SCHEMA],
                   [_format_facts_output] and [_merge_facts];
    - [Service]  : [is_probably_pdf], [upload_pdf], [_build_llm_prompt],
                   [_call_openai_json] and [extract_lease_facts];
    - the properties of the specification, and further properties of the
      code, at the end.

    A Python [str] is modelled by [string]; its characters are the code
    points 0..255.  A [Dict[str, Optional[str]]] is a
    [gmap string (option string)]: a key may be absent ([None] lookup),
    bound to Python's [None] ([Some None]) or bound to a string. *)

From Stdlib Require Import Ascii NArith Bool Lia.
From Stdlib Require Strings.Byte.
From stdpp Require Import gmap strings list fin_maps.

Local Open Scope N_scope.

(** ** Characters *)

Module PyChar.

Definition code (c : ascii) : N := N_of_ascii c.

Definition between (lo hi n : N) : bool := (lo <=? n) && (n <=? hi).

(** [str.isspace] on one character, which is also what [\s] matches in a
    [str] pattern. *)
Definition isspace (c : ascii) : bool :=
  let n := code c in
  between 9 13 n || between 28 32 n || (n =? 133) || (n =? 160).

(** [\d] in a [str] pattern: the decimal digits. *)
Definition isdigit (c : ascii) : bool := between 48 57 (code c).

(** [str.isalnum] on one character. *)
Definition isalnum (c : ascii) : bool :=
  let n := code c in
  between 48 57 n || between 65 90 n || between 97 122 n
  || (n =? 170) || between 178 179 n || (n =? 181) || between 185 186 n
  || between 188 190 n || between 192 214 n || between 216 246 n
  || between 248 255 n.

(** [\w] in a [str] pattern: alphanumeric or underscore. *)
Definition isword (c : ascii) : bool := isalnum c || (code c =? 95).

(** Lower-casing used by [re.IGNORECASE] for the characters that occur
    as literals in the patterns (all of them ASCII). *)
Definition lower (c : ascii) : ascii :=
  let n := code c in
  if between 65 90 n then ascii_of_N (n + 32) else c.

Definition eqb_flag (ignorecase : bool) (a b : ascii) : bool :=
  if ignorecase then Ascii.eqb (lower a) (lower b) else Ascii.eqb a b.

Definition LF : ascii := ascii_of_N 10.
Definition CR : ascii := ascii_of_N 13.

(** The line boundaries of [str.splitlines]. *)
Definition islinebreak (c : ascii) : bool :=
  let n := code c in
  between 10 13 n || between 28 30 n || (n =? 133).

End PyChar.

(** ** String methods *)

Module PyStr.

Fixpoint lstrip_by (p : ascii -> bool) (s : string) : string :=
  match s with
  | EmptyString => EmptyString
  | String c s' => if p c then lstrip_by p s' else s
  end.

Fixpoint rstrip_by (p : ascii -> bool) (s : string) : string :=
  match s with
  | EmptyString => EmptyString
  | String c s' =>
      match rstrip_by p s' with
      | EmptyString => if p c then EmptyString else String c EmptyString
      | r => String c r
      end
  end.

Definition strip_by (p : ascii -> bool) (s : string) : string :=
  rstrip_by p (lstrip_by p s).

(** [s.strip()] *)
Definition strip (s : string) : string := strip_by PyChar.isspace s.

Fixpoint mem (c : ascii) (chars : string) : bool :=
  match chars with
  | EmptyString => false
  | String d chars' => Ascii.eqb c d || mem c chars'
  end.

(** [s.strip(chars)] *)
Definition strip_chars (chars : string) (s : string) : string :=
  strip_by (fun c => mem c chars) s.

Fixpoint snoc (s : string) (c : ascii) : string :=
  match s with
  | EmptyString => String c EmptyString
  | String d s' => String d (snoc s' c)
  end.

Definition is_empty (s : string) : bool :=
  match s with EmptyString => true | _ => false end.

(** [s.splitlines()]: [line] is the line being read and [after_cr] tells
    that the previous character was a carriage return, so that a line feed
    that follows belongs to the same boundary. *)
Fixpoint splitlines_go (s line : string) (after_cr : bool) : list string :=
  match s with
  | EmptyString => if is_empty line then [] else [line]
  | String c s' =>
      if Ascii.eqb c PyChar.LF && after_cr then splitlines_go s' line false
      else if PyChar.islinebreak c
           then line :: splitlines_go s' EmptyString (Ascii.eqb c PyChar.CR)
           else splitlines_go s' (snoc line c) false
  end.

Definition splitlines (s : string) : list string :=
  splitlines_go s EmptyString false.

(** Truth value of an [Optional[str]]: [None] and [""] are false. *)
Definition truthy (v : option string) : bool :=
  match v with
  | Some s => negb (is_empty s)
  | None => false
  end.

(** [a or b] on [Optional[str]] operands. *)
Definition or_ (a b : option string) : option string :=
  if truthy a then a else b.

End PyStr.

(** ** The regular-expression engine *)

Module Re.

(** One-character sets. *)
Inductive cset : Type :=
| CAny                      (* [.], without DOTALL *)
| CDigit                    (* [\d] *)
| CSpace                    (* [\s] *)
| CWord                     (* [\w] *)
| CChar (c : ascii)         (* a literal character *)
| CUnion (a b : cset)       (* members of a bracket expression *)
| CNot (a : cset).          (* [[^...]] *)

Fixpoint in_cset (ignorecase : bool) (cs : cset) (c : ascii) : bool :=
  match cs with
  | CAny => negb (Ascii.eqb c PyChar.LF)
  | CDigit => PyChar.isdigit c
  | CSpace => PyChar.isspace c
  | CWord => PyChar.isword c
  | CChar d => PyChar.eqb_flag ignorecase d c
  | CUnion a b => in_cset ignorecase a c || in_cset ignorecase b c
  | CNot a => negb (in_cset ignorecase a c)
  end.

(** Patterns.  Every quantifier of the program other than [?] applies to a
    one-character atom, which is what [Rep] offers. *)
Inductive regex : Type :=
| Eps
| Set_ (cs : cset)
| Lit (l : string)
| Cat (r1 r2 : regex)
| Alt (r1 r2 : regex)
| Opt (r : regex)                                       (* [(?:r)?] *)
| Rep (greedy : bool) (lo : nat) (hi : option nat) (cs : cset)
| Grp (r : regex)                                       (* group 1 *)
| WordB                                                 (* [\b] *)
| Bos.                                                  (* [^] *)

(** A position in the subject: the character just before it, if any, and
    what remains to be read. *)
Definition cursor : Type := option ascii * string.

(** The outcome of a match attempt: group 1 and the position reached. *)
Definition outcome : Type := option string * cursor.

Definition at_word (c : option ascii) : bool :=
  match c with Some c => PyChar.isword c | None => false end.

Definition peek (s : string) : option ascii :=
  match s with String c _ => Some c | EmptyString => None end.

Fixpoint lit (ignorecase : bool) (l : string) (cur : cursor) : option cursor :=
  match l with
  | EmptyString => Some cur
  | String d l' =>
      match snd cur with
      | String c s' =>
          if PyChar.eqb_flag ignorecase d c then lit ignorecase l' (Some c, s')
          else None
      | EmptyString => None
      end
  end.

Definition may_repeat (hi : option nat) : bool :=
  match hi with Some O => false | _ => true end.

Definition dec_hi (hi : option nat) : option nat :=
  match hi with Some n => Some (Nat.pred n) | None => None end.

(** [cs{lo,hi}] followed by the continuation [k]: a greedy quantifier
    first tries to read one more character, a lazy one first tries to
    stop. *)
Fixpoint rep {R : Type} (ignorecase greedy : bool) (cs : cset)
    (lo : nat) (hi : option nat) (prev : option ascii) (s : string)
    (k : cursor -> option R) : option R :=
  let stop := fun _ : unit =>
    match lo with O => k (prev, s) | S _ => None end in
  let more := fun _ : unit =>
    match s with
    | String c s' =>
        if may_repeat hi && in_cset ignorecase cs c
        then rep ignorecase greedy cs (Nat.pred lo) (dec_hi hi) (Some c) s' k
        else None
    | EmptyString => None
    end in
  if greedy
  then match more tt with Some x => Some x | None => stop tt end
  else match stop tt with Some x => Some x | None => more tt end.

(** The text read between two positions of the same subject. *)
Definition consumed (from to : cursor) : string :=
  String.substring 0 (String.length (snd from) - String.length (snd to))
    (snd from).

(** The backtracking matcher, in continuation-passing style: [k] is the
    rest of the pattern, [g] the current content of group 1. *)
Fixpoint m {R : Type} (ignorecase : bool) (r : regex) (cur : cursor)
    (g : option string) (k : cursor -> option string -> option R)
    : option R :=
  match r with
  | Eps => k cur g
  | Set_ cs =>
      match snd cur with
      | String c s' =>
          if in_cset ignorecase cs c then k (Some c, s') g else None
      | EmptyString => None
      end
  | Lit l =>
      match lit ignorecase l cur with
      | Some cur' => k cur' g
      | None => None
      end
  | Cat r1 r2 =>
      m ignorecase r1 cur g (fun cur' g' => m ignorecase r2 cur' g' k)
  | Alt r1 r2 =>
      match m ignorecase r1 cur g k with
      | Some x => Some x
      | None => m ignorecase r2 cur g k
      end
  | Opt r1 =>
      match m ignorecase r1 cur g k with
      | Some x => Some x
      | None => k cur g
      end
  | Rep greedy lo hi cs =>
      rep ignorecase greedy cs lo hi (fst cur) (snd cur)
        (fun cur' => k cur' g)
  | Grp r1 =>
      m ignorecase r1 cur g (fun cur' _ => k cur' (Some (consumed cur cur')))
  | WordB =>
      if xorb (at_word (fst cur)) (at_word (peek (snd cur)))
      then k cur g else None
  | Bos =>
      match fst cur with
      | None => k cur g
      | Some _ => None
      end
  end.

(** [pattern.match] at one position. *)
Definition match_at (ignorecase : bool) (r : regex) (cur : cursor)
    : option outcome :=
  m ignorecase r cur None (fun cur' g => Some (g, cur')).

(** A match object: where the match starts and ends in the subject, and
    group 1 ([None] when the group took no part in the match). *)
Record match_obj : Type := MatchObj {
  m_start : nat;
  m_end : nat;
  m_group1 : option string
}.

(** [re.search]: the first position, from the left, at which the pattern
    matches. *)
Fixpoint search_from (ignorecase : bool) (r : regex) (start : nat)
    (prev : option ascii) (s : string) : option match_obj :=
  match match_at ignorecase r (prev, s) with
  | Some (g, cur') =>
      Some (MatchObj start
              (start + (String.length s - String.length (snd cur')))%nat g)
  | None =>
      match s with
      | String c s' => search_from ignorecase r (S start) (Some c) s'
      | EmptyString => None
      end
  end.

Definition search (r : regex) (text : string) (ignorecase : bool)
    : option match_obj :=
  search_from ignorecase r 0%nat None text.

(** [re.sub(r, "", s)] for a pattern that matches no empty string (as
    the two patterns the program substitutes): every match, found from
    left to right, is dropped.  [skip] counts the characters of the
    current match still to be dropped. *)
Fixpoint sub_go (ignorecase : bool) (r : regex) (prev : option ascii)
    (s : string) (skip : nat) : string :=
  match s with
  | EmptyString => EmptyString
  | String c s' =>
      match skip with
      | S n => sub_go ignorecase r (Some c) s' n
      | O =>
          match match_at ignorecase r (prev, s) with
          | Some (_, cur') =>
              match (String.length s - String.length (snd cur'))%nat with
              | S n => sub_go ignorecase r (Some c) s' n
              | O => String c (sub_go ignorecase r (Some c) s' 0%nat)
              end
          | None => String c (sub_go ignorecase r (Some c) s' 0%nat)
          end
      end
  end.

Definition sub_empty (r : regex) (s : string) (ignorecase : bool) : string :=
  sub_go ignorecase r None s 0%nat.

End Re.

(** ** The patterns of the program *)

Module Patterns.
Import Re.

(** Each definition is preceded by the pattern it transcribes; where the
    pattern has a star just before a closing parenthesis, a blank is put
    between the two. *)

(** Concatenation of the items of a pattern, in order. *)
Fixpoint seq (rs : list regex) : regex :=
  match rs with
  | [] => Eps
  | r :: rs' => Cat r (seq rs')
  end.

(** [r|r1|...|rn], tried from left to right. *)
Fixpoint alts (r : regex) (rs : list regex) : regex :=
  match rs with
  | [] => r
  | r' :: rs' => Alt r (alts r' rs')
  end.

Definition star (cs : cset) : regex := Rep true 0 None cs.
Definition plus (cs : cset) : regex := Rep true 1 None cs.
Definition lazy_plus (cs : cset) : regex := Rep false 1 None cs.
Definition times (lo hi : nat) (cs : cset) : regex := Rep true lo (Some hi) cs.
(** [c?] on a literal character *)
Definition optc (c : ascii) : regex := Rep true 0 (Some 1%nat) (CChar c).

Definition ch (n : N) : ascii := ascii_of_N n.
Definition COLON := ch 58.
Definition COMMA := ch 44.
Definition DOT := ch 46.
Definition DASH := ch 45.

(** [[^\n\r]] *)
Definition not_eol : cset := CNot (CUnion (CChar PyChar.LF) (CChar PyChar.CR)).
(** [[\w\-]] *)
Definition word_or_dash : cset := CUnion CWord (CChar DASH).

(** [\bTenant\s*:\s*(.+)] *)
Definition tenant_pat : regex :=
  seq [WordB; Lit "Tenant"; star CSpace; Lit ":"; star CSpace;
       Grp (plus CAny)].

(** [\bLandlord\s*:\s*(.+)] *)
Definition landlord_pat : regex :=
  seq [WordB; Lit "Landlord"; star CSpace; Lit ":"; star CSpace;
       Grp (plus CAny)].

(** [\b(?:Premises(?:\s*Address)?|Property(?:\s*Address)?|Address)\s*(?:\:|\-)\s*(.+)] *)
Definition address_label_pat : regex :=
  seq [WordB;
       alts (seq [Lit "Premises"; Opt (seq [star CSpace; Lit "Address"])])
            [seq [Lit "Property"; Opt (seq [star CSpace; Lit "Address"])];
             Lit "Address"];
       star CSpace;
       Alt (Lit ":") (Lit "-");
       star CSpace;
       Grp (plus CAny)].

(** [(?:Suite|Ste\.?|#)] *)
Definition suite_word : regex :=
  alts (Lit "Suite") [seq [Lit "Ste"; optc DOT]; Lit "#"].

(** [(?:Suite|Ste\.?|#)\s*([\w\-]+)] *)
Definition suite_pat : regex :=
  seq [suite_word; star CSpace; Grp (plus word_or_dash)].

(** [(?:,?\s* )(?:Suite|Ste\.?|#)\s*[\w\-]+] *)
Definition suite_removal_pat : regex :=
  seq [seq [optc COMMA; star CSpace]; suite_word; star CSpace;
       plus word_or_dash].

(** [^\s*\d{1,6}\s+.+?(?:Street|St\.|Avenue|Ave\.|Road|Rd\.|Boulevard|Blvd\.|Lane|Ln\.|Drive|Dr\.|Court|Ct\.|Way|Terrace|Ter\.)\b.*] *)
Definition street_pat : regex :=
  seq [Bos; star CSpace; times 1 6 CDigit; plus CSpace; lazy_plus CAny;
       alts (Lit "Street")
            [Lit "St."; Lit "Avenue"; Lit "Ave."; Lit "Road"; Lit "Rd.";
             Lit "Boulevard"; Lit "Blvd."; Lit "Lane"; Lit "Ln.";
             Lit "Drive"; Lit "Dr."; Lit "Court"; Lit "Ct."; Lit "Way";
             Lit "Terrace"; Lit "Ter."];
       WordB; star CAny].

(** [\b(?:Rentable|Leasable|Approx\.?|Total)?\s*(?:Square\s*Feet|Sq\.?\s*Ft\.?|SF)[^\d]*(\d[\d,\.]+)] *)
Definition square_feet_pat : regex :=
  seq [WordB;
       Opt (alts (Lit "Rentable")
              [Lit "Leasable"; seq [Lit "Approx"; optc DOT]; Lit "Total"]);
       star CSpace;
       alts (seq [Lit "Square"; star CSpace; Lit "Feet"])
            [seq [Lit "Sq"; optc DOT; star CSpace; Lit "Ft"; optc DOT];
             Lit "SF"];
       star (CNot CDigit);
       Grp (seq [Set_ CDigit;
                 plus (CUnion CDigit (CUnion (CChar COMMA) (CChar DOT)))])].

(** [[^\d\.]] *)
Definition non_numeric_pat : regex := Set_ (CNot (CUnion CDigit (CChar DOT))).

(** [\b(?:Lease\s* )?Commencement\s*Date\s*:?\s*([^\n\r]+)] *)
Definition commencement_pat : regex :=
  seq [WordB; Opt (seq [Lit "Lease"; star CSpace]); Lit "Commencement";
       star CSpace; Lit "Date"; star CSpace; optc COLON; star CSpace;
       Grp (plus not_eol)].

(** [\b(?:Lease\s* )?(?:Expiration|Expiry)\s*Date\s*:?\s*([^\n\r]+)] *)
Definition expiration_pat : regex :=
  seq [WordB; Opt (seq [Lit "Lease"; star CSpace]);
       Alt (Lit "Expiration") (Lit "Expiry");
       star CSpace; Lit "Date"; star CSpace; optc COLON; star CSpace;
       Grp (plus not_eol)].

(** [\bProportionate\s+Share\s*:?\s*(\d{1,2}(?:\.\d+)?\s*%)] *)
Definition proportionate_share_pat : regex :=
  seq [WordB; Lit "Proportionate"; plus CSpace; Lit "Share"; star CSpace;
       optc COLON; star CSpace;
       Grp (seq [times 1 2 CDigit; Opt (seq [Lit "."; plus CDigit]);
                 star CSpace; Lit "%"])].

(** [\bBase\s+Year\s*:?\s*(\d{4})\b] *)
Definition base_year_pat : regex :=
  seq [WordB; Lit "Base"; plus CSpace; Lit "Year"; star CSpace;
       optc COLON; star CSpace; Grp (times 4 4 CDigit); WordB].

(** [\bSecurity\s+Deposit], the label both deposit patterns start with *)
Definition deposit_label : list regex :=
  [WordB; Lit "Security"; plus CSpace; Lit "Deposit"].

(** [\bSecurity\s+Deposit\s*:?\s*(?:\$\s* )?([\d,]+(?:\.\d{2})?)\b] *)
Definition deposit_amount_pat : regex :=
  seq (deposit_label ++
       [star CSpace; optc COLON; star CSpace;
        Opt (seq [Lit "$"; star CSpace]);
        Grp (seq [plus (CUnion CDigit (CChar COMMA));
                  Opt (seq [Lit "."; times 2 2 CDigit])]);
        WordB]).

(** [\bSecurity\s+Deposit\b[^\n\r]*(?:None|N/A|No\s+Deposit)] *)
Definition deposit_none_pat : regex :=
  seq (deposit_label ++
       [WordB; star not_eol;
        alts (Lit "None") [Lit "N/A"; seq [Lit "No"; plus CSpace; Lit "Deposit"]]]).

End Patterns.

(** ** Exceptions *)

Inductive exn : Type :=
| AttributeError      (* [None.strip()] *)
| ParserError         (* raised by the date parser *)
| OverflowError.      (* raised by the date parser *)

Inductive res (A : Type) : Type :=
| Ok (a : A)
| Raise (e : exn).
Arguments Ok {A} a.
Arguments Raise {A} e.

#[global] Instance res_ret : MRet res := fun A a => Ok a.
#[global] Instance res_bind : MBind res := fun A B f x =>
  match x with
  | Ok a => f a
  | Raise e => Raise e
  end.

(** ** Dates *)

Module Date.

Definition is_leap (y : N) : bool :=
  ((y mod 4 =? 0) && negb (y mod 100 =? 0)) || (y mod 400 =? 0).

Definition days_in_month (y mo : N) : N :=
  if mo =? 2 then (if is_leap y then 29 else 28)
  else if (mo =? 4) || (mo =? 6) || (mo =? 9) || (mo =? 11) then 30
  else 31.

(** The range checks of the [datetime] constructor. *)
Definition valid (y mo d : N) : bool :=
  PyChar.between 1 9999 y && PyChar.between 1 12 mo
  && PyChar.between 1 (days_in_month y mo) d.

(** A [datetime] object; the time of day plays no part in the program. *)
Record datetime : Type := Datetime {
  year : N;
  month : N;
  day : N;
  datetime_ok : valid year month day = true
}.

Definition digit (n : N) : ascii := ascii_of_N (48 + n mod 10).

(** [%d] and [%m]: two digits, zero-padded *)
Definition pad2 (n : N) : string :=
  String (digit (n / 10)) (String (digit n) EmptyString).

(** [%Y] as CPython prints it on Linux, where the C library does not pad
    the year: the decimal digits of the year, fewer than four for a year
    below 1000.  A year is between 1 and 9999. *)
Definition year_Y (n : N) : string :=
  if n <? 10 then String (digit n) EmptyString
  else if n <? 100 then String (digit (n / 10)) (String (digit n) EmptyString)
  else if n <? 1000
  then String (digit (n / 100))
         (String (digit (n / 10)) (String (digit n) EmptyString))
  else String (digit (n / 1000)) (String (digit (n / 100))
         (String (digit (n / 10)) (String (digit n) EmptyString))).

(** [dt.strftime("%d-%m-%Y")] *)
Definition strftime_d_m_Y (dt : datetime) : string :=
  pad2 (day dt) +:+ "-" +:+ pad2 (month dt) +:+ "-" +:+ year_Y (year dt).

End Date.

(** ** The program *)

Module Lease.
Import Re Patterns.

Definition IGNORECASE : bool := true.
Definition NOFLAG : bool := false.

(** [mo.group(1).strip()]: raises when group 1 took no part in the
    match. *)
Definition group1_strip (mo : match_obj) : res string :=
  match m_group1 mo with
  | Some g => Ok (PyStr.strip g)
  | None => Raise AttributeError
  end.

Definition _first_match (pattern : regex) (text : string) (flags : bool)
    : res (option string) :=
  match search pattern text flags with
  | Some mo => g ← group1_strip mo; Ok (Some g)
  | None => Ok None
  end.

(** The for loop over [cand_lines], left at the first suite marker. *)
Fixpoint first_suite (cand_lines : list string) : res (option string) :=
  match cand_lines with
  | [] => Ok None
  | cl :: rest =>
      match search suite_pat cl IGNORECASE with
      | Some s => g ← group1_strip s; Ok (Some g)
      | None => first_suite rest
      end
  end.

(** 1) Label-based capture *)
Definition label_capture (text : string)
    : res (option string * option string) :=
  match search address_label_pat text IGNORECASE with
  | Some mo =>
      line ← group1_strip mo;
      match search suite_pat line IGNORECASE with
      | Some s =>
          suite ← group1_strip s;
          let address :=
            PyStr.strip_chars " ,;-"
              (sub_empty suite_removal_pat line IGNORECASE) in
          Ok (Some address, Some suite)
      | None => Ok (Some line, None)
      end
  | None => Ok (None, None)
  end.

(** 2) Street-pattern lines: the loop over [enumerate(lines)], left at the
    first line that matches; [address] and [suite] are the values the two
    variables hold when the loop starts. *)
Fixpoint street_scan (lines : list string) (address suite : option string)
    : res (option string * option string) :=
  match lines with
  | [] => Ok (address, suite)
  | l :: rest =>
      match search street_pat l IGNORECASE with
      | Some _ =>
          let cand_lines :=
            l :: match rest with next :: _ => [next] | [] => [] end in
          found ← first_suite cand_lines;
          Ok (Some (PyStr.strip_chars " ,;-" l),
              match found with Some g => Some g | None => suite end)
      | None => street_scan rest address suite
      end
  end.

(** 3) Global suite search as last resort *)
Definition global_suite (text : string) (suite : option string)
    : res (option string) :=
  match search suite_pat text IGNORECASE with
  | Some s => g ← group1_strip s; Ok (Some g)
  | None => Ok suite
  end.

Definition _extract_address_and_suite (text : string)
    : res (option string * option string) :=
  let lines := PyStr.strip <$> PyStr.splitlines text in
  '(address, suite) ← label_capture text;
  '(address, suite) ←
    (if PyStr.truthy address then Ok (address, suite)
     else street_scan lines address suite);
  suite ←
    (if PyStr.truthy suite then Ok suite else global_suite text suite);
  Ok (address, suite).

(** What an f-string puts for a value that holds a string. *)
Definition str_of (v : option string) : string := default "None" v.

(** The derived field, as lines 178-184 compute it. *)
Definition combined_addr (address suite : option string) : option string :=
  if PyStr.truthy address && PyStr.truthy suite
  then Some (str_of address +:+ " Suite " +:+ str_of suite)
  else if PyStr.truthy address then address
  else if PyStr.truthy suite then Some ("Suite " +:+ str_of suite)
  else None.

Section WithDateParser.

(** [dateutil.parser.parse(value, dayfirst=False, fuzzy=True)], a
    third-party function: it returns a [datetime] or raises. *)
Variable date_parser_parse : string -> res Date.datetime.

Definition _normalize_date (value : string) : option string :=
  match date_parser_parse value with
  | Ok dt => Some (Date.strftime_d_m_Y dt)
  | Raise _ => None
  end.

Definition _extract_lease_facts_from_text (text : string)
    : res (gmap string (option string)) :=
  (* Parties *)
  tenant ← _first_match tenant_pat text IGNORECASE;
  landlord ← _first_match landlord_pat text IGNORECASE;
  (* Address and suite heuristics *)
  '(address, suite) ← _extract_address_and_suite text;
  (* Square footage *)
  square_feet_raw ← _first_match square_feet_pat text IGNORECASE;
  let square_feet :=
    if PyStr.truthy square_feet_raw
    then (λ raw, sub_empty non_numeric_pat raw NOFLAG) <$> square_feet_raw
    else None in
  (* Dates *)
  commence_raw ← _first_match commencement_pat text IGNORECASE;
  expire_raw ← _first_match expiration_pat text IGNORECASE;
  let lease_commencement :=
    if PyStr.truthy commence_raw then commence_raw ≫= _normalize_date
    else None in
  let lease_expiration :=
    if PyStr.truthy expire_raw then expire_raw ≫= _normalize_date
    else None in
  (* Proportionate Share *)
  proportionate_share ←
    _first_match proportionate_share_pat text IGNORECASE;
  (* Base Year *)
  base_year ← _first_match base_year_pat text IGNORECASE;
  (* Security Deposit *)
  security_deposit ← _first_match deposit_amount_pat text IGNORECASE;
  let security_deposit :=
    if negb (PyStr.truthy security_deposit)
    then match search deposit_none_pat text IGNORECASE with
         | Some _ => Some "None"
         | None => None
         end
    else security_deposit in
  Ok (list_to_map
        [("tenant_name", tenant);
         ("landlord_name", landlord);
         ("property_address", address);
         ("suite", suite);
         ("property_address_and_suite", combined_addr address suite);
         ("total_square_feet", square_feet);
         ("lease_commencement_date", lease_commencement);
         ("lease_expiration_date", lease_expiration);
         ("proportionate_share", proportionate_share);
         ("base_year", base_year);
         ("security_deposit",
          if PyStr.truthy security_deposit then security_deposit
          else None)]).

End WithDateParser.

Definition LEASE_FACTS_SCHEMA_items : list (string * option string) :=
  [("tenant_name", None);
   ("landlord_name", None);
   ("property_address", None);
   ("suite", None);
   ("property_address_and_suite", None);
   ("total_square_feet", None);
   ("lease_commencement_date", None);
   ("lease_expiration_date", None);
   ("proportionate_share", None);
   ("base_year", None);
   ("security_deposit", None)].

Definition LEASE_FACTS_SCHEMA : gmap string (option string) :=
  list_to_map LEASE_FACTS_SCHEMA_items.

(** The eleven canonical keys, in the order of the literal. *)
Definition LEASE_KEYS : list string := LEASE_FACTS_SCHEMA_items.*1.

(** [v if v not in ("", None) else None] *)
Definition blank_to_none (v : option string) : option string :=
  match v with
  | Some s => if PyStr.is_empty s then None else Some s
  | None => None
  end.

(** [out = dict(LEASE_FACTS_SCHEMA)], then [out.update] with the entries
    of [facts] whose key is in [out]: an updated key takes the new
    value, the others keep the schema's. *)
Definition _format_facts_output (facts : gmap string (option string))
    : gmap string (option string) :=
  let out := LEASE_FACTS_SCHEMA in
  (blank_to_none <$> filter (λ kv, kv.1 ∈ dom out) facts) ∪ out.

(** [d.get(key)] *)
Definition get (d : gmap string (option string)) (key : string)
    : option string :=
  default None (d !! key).

(** [merged = dict(LEASE_FACTS_SCHEMA)], then one assignment per key of
    [merged]. *)
Definition _merge_facts (primary secondary : gmap string (option string))
    : gmap string (option string) :=
  foldl (λ merged key,
           <[key := PyStr.or_ (get primary key) (get secondary key)]> merged)
        LEASE_FACTS_SCHEMA LEASE_KEYS.

(** Lines 302-316 of [extract_lease_facts]: what the endpoint computes
    from the text of the document and the record of the model
    ([{}] when no key is configured or the call failed). *)
Definition extract_lease_facts_core
    (date_parser_parse : string -> res Date.datetime)
    (text : string) (llm_facts : gmap string (option string))
    : res (gmap string (option string)) :=
  regex_facts ← _extract_lease_facts_from_text date_parser_parse text;
  Ok (_format_facts_output (_merge_facts regex_facts llm_facts)).

End Lease.

(** ** The service

    The two endpoints and what they call.  An uploaded file is its content
    and a position; the temporary file is the bytes written to it.  The
    libraries that the service calls are parameters: the name that
    [tempfile] chooses, the client of the model, [json.loads], [pdfminer]'s
    [extract_text] and the environment variable.  The decorator [retry] is
    written out as the loop it stands for; waiting between attempts has no
    effect on the result and is left out.  The file system is taken to
    work: creating the directory and the temporary file do not fail. *)

Module Service.
Import Byte Lease.

(** [s.lower()] on one character. *)
Definition lower_char (c : ascii) : ascii :=
  let n := PyChar.code c in
  if PyChar.between 65 90 n || PyChar.between 192 214 n
     || PyChar.between 216 222 n
  then ascii_of_N (n + 32) else c.

Fixpoint lower (s : string) : string :=
  match s with
  | EmptyString => EmptyString
  | String c s' => String (lower_char c) (lower s')
  end.

(** [s.endswith(suffix)] *)
Definition endswith (s suffix : string) : bool :=
  let n := String.length s in
  let k := String.length suffix in
  (k <=? n)%nat && String.eqb (String.substring (n - k) k s) suffix.

(** [s[:n]] *)
Fixpoint slice_to (n : nat) (s : string) : string :=
  match n, s with
  | S n', String c s' => String c (slice_to n' s')
  | _, _ => EmptyString
  end.

(** [v or d] for an optional string [v] and a string [d]. *)
Definition or_default (v : option string) (d : string) : string :=
  match v with
  | Some s => if PyStr.is_empty s then d else s
  | None => d
  end.

(** [b.startswith(prefix)] on bytes. *)
Fixpoint startswith (b prefix : list byte) : bool :=
  match prefix, b with
  | [], _ => true
  | p :: prefix', c :: b' => Byte.eqb c p && startswith b' prefix'
  | _ :: _, [] => false
  end.

(** [b"%PDF-"] *)
Definition PDF_MAGIC : list byte := [x25; x50; x44; x46; x2d].

Definition is_probably_pdf (file_start : list byte) : bool :=
  startswith file_start PDF_MAGIC.

Definition CHUNK_SIZE_BYTES : nat := N.to_nat (1024 * 1024).

(** An uploaded file: its declared name and type, its content and the
    position of the next read. *)
Record UploadFile : Type := {
  filename : option string;
  content_type : option string;
  body : list byte;
  position : nat
}.

(** [await file.read(size)] *)
Definition read (file : UploadFile) (size : nat) : list byte * UploadFile :=
  let chunk := take size (drop (position file) (body file)) in
  (chunk,
   {| filename := filename file; content_type := content_type file;
      body := body file; position := (position file + length chunk)%nat |}).

(** [await file.seek(offset)] *)
Definition seek (file : UploadFile) (offset : nat) : UploadFile :=
  {| filename := filename file; content_type := content_type file;
     body := body file; position := offset |}.

(** What a handler does: it raises an [HTTPException], returns, or lets an
    exception of the extraction through. *)
Inductive response (A : Type) : Type :=
| HTTPException (status_code : nat) (detail : string)
| Returned (a : A)
| Unhandled (e : exn).
Arguments HTTPException {A} status_code detail.
Arguments Returned {A} a.
Arguments Unhandled {A} e.

Definition NO_FILE : string := "No file uploaded".
Definition NOT_A_PDF : string :=
  "File must be a PDF with content-type application/pdf".

(** The loop [while True: chunk = await file.read(CHUNK_SIZE_BYTES) ...]:
    [written] is what the temporary file holds, [total_bytes] the running
    count; [None] when the fuel runs out. *)
Fixpoint write_chunks (fuel : nat) (file : UploadFile) (written : list byte)
    (total_bytes : nat) : option (list byte * nat) :=
  match fuel with
  | O => None
  | S fuel' =>
      let '(chunk, file') := read file CHUNK_SIZE_BYTES in
      match chunk with
      | [] => Some (written, total_bytes)
      | _ => write_chunks fuel' file' (written ++ chunk)
               (total_bytes + length chunk)%nat
      end
  end.

(** The JSON object that [upload_pdf] returns. *)
Record receipt : Type := {
  message : string;
  original_filename : string;
  receipt_content_type : string;
  size_bytes : nat;
  saved_path : string
}.

Section Upload.

(** [tempfile.NamedTemporaryFile(delete=False, dir=output_dir,
    suffix=suffix).name]: the path of the file that is created. *)
Variable temporary_name : string → string.

(** [upload_pdf]: the response, and the content of the file left on disk. *)
Definition upload_pdf (fuel : nat) (file : option UploadFile)
    : option (response (receipt * list byte)) :=
  match file with
  | None => Some (HTTPException 400 NO_FILE)
  | Some file =>
      let content_type := or_default (content_type file) EmptyString in
      let original_filename := or_default (filename file) "uploaded.pdf" in
      if negb (endswith (lower original_filename) ".pdf")
         && negb (String.eqb content_type "application/pdf")
      then Some (HTTPException 400 NOT_A_PDF)
      else
        (* Peek and validate that the file starts like a PDF *)
        let '(first_bytes, file) := read file 5 in
        let file := seek file 0 in
        let file := if negb (is_probably_pdf first_bytes) then file else file in
        let suffix :=
          if negb (endswith (lower original_filename) ".pdf") then ".pdf"
          else EmptyString in
        '(written, total_bytes) ← write_chunks fuel file [] 0%nat;
        Some (Returned
                ({| message := "PDF uploaded successfully";
                    original_filename := original_filename;
                    receipt_content_type := content_type;
                    size_bytes := total_bytes;
                    saved_path := temporary_name suffix |},
                 written))
  end.

End Upload.

(** Adjacent string literals, as Python joins them. *)
Fixpoint joined (parts : list string) : string :=
  match parts with
  | [] => EmptyString
  | p :: parts' => p +:+ joined parts'
  end.

Definition NL : string := String PyChar.LF EmptyString.

(** The text before the document in the prompt, lines 224-235. *)
Definition PROMPT_HEAD : string :=
  joined
    ["You are an expert lease analyst. Extract the following key facts from the lease text."; NL;
     "Return ONLY a JSON object with these exact keys: tenant_name, landlord_name, property_address, suite, property_address_and_suite, ";
     "total_square_feet, lease_commencement_date, lease_expiration_date, proportionate_share, base_year, security_deposit."; NL;
     "Instructions:"; NL;
     "- property_address: the street address only (no suite)."; NL;
     "- suite: only the suite/ste/# designator (e.g., 120B)."; NL;
     "- property_address_and_suite: a human-readable combination like '<address> Suite <suite>' when both exist."; NL;
     "- Dates must be DD-MM-YYYY."; NL;
     "- If a field is not present, use null."; NL;
     "- For percentages include the % sign."; NL;
     "- For currency include only numbers and decimal point (e.g., 1234.56).";
     NL; NL;
     "Lease Text:"; NL].

Definition PROMPT_TEXT_LIMIT : nat := N.to_nat 12000.

Definition _build_llm_prompt (document_text : string) : string :=
  PROMPT_HEAD +:+ slice_to PROMPT_TEXT_LIMIT document_text.

(** What the call of the model can raise. *)
Inductive llm_exn : Type :=
| RuntimeError                 (* the SDK is not installed *)
| APIError (detail : string)   (* raised by the client *)
| RetryError.                  (* raised by [retry] after the last attempt *)

Inductive attempt (A : Type) : Type :=
| Done (a : A)
| Failed (e : llm_exn).
Arguments Done {A} a.
Arguments Failed {A} e.

Section Model.

(** [OpenAI is not None] *)
Variable sdk_available : bool.

(** [OpenAI()], [client.chat.completions.create(...)] and
    [.choices[0].message.content] at the n-th attempt, for a model and a
    prompt: the content, which may be [None], or an exception. *)
Variable chat_completion : nat → string → string → attempt (option string).

(** [json.loads(content)] when it returns an object whose values are
    strings or [null], the [Dict[str, Optional[str]]] that the annotations
    declare; [None] when [json.loads] raises or returns something else than
    an object, on which [facts.items()] raises inside the [try].  An object
    with a number, a boolean, a list or an object as a value has no
    counterpart in this type: the formatter and the merger keep such values
    as they are, and the properties of the service say nothing about
    them. *)
Variable json_loads : string → option (gmap string (option string)).

(** The body of [_call_openai_json], at the n-th attempt. *)
Definition call_once (n : nat) (prompt model : string)
    : attempt (gmap string (option string)) :=
  if negb sdk_available then Failed RuntimeError
  else
    match chat_completion n model prompt with
    | Failed e => Failed e
    | Done content =>
        let content := or_default content "{}" in
        match json_loads content with
        | Some raw => Done (_format_facts_output raw)
        | None => Done LEASE_FACTS_SCHEMA
        end
    end.

(** [@retry(stop=stop_after_attempt(3), ...)]: the call is made again after
    an exception, [left] times at most. *)
Fixpoint retrying (left n : nat) (prompt model : string)
    : attempt (gmap string (option string)) :=
  match left with
  | O => Failed RetryError
  | S left' =>
      match call_once n prompt model with
      | Done r => Done r
      | Failed _ => retrying left' (S n) prompt model
      end
  end.

Definition _call_openai_json (prompt : string)
    : attempt (gmap string (option string)) :=
  retrying 3 0 prompt "gpt-4o-mini".

(** [pdfminer]'s [extract_text] on the content of the temporary file: the
    text, which may be empty or [None], or the message of an exception. *)
Variable extract_text : list byte → string + option string.

(** [os.getenv("OPENAI_API_KEY")] *)
Variable api_key : option string.

Variable date_parser_parse : string → res Date.datetime.

Definition extract_lease_facts (fuel : nat) (file : option UploadFile)
    : option (response (gmap string (option string))) :=
  match file with
  | None => Some (HTTPException 400 NO_FILE)
  | Some file =>
      let content_type := or_default (content_type file) EmptyString in
      let original_filename := or_default (filename file) "lease.pdf" in
      if negb (endswith (lower original_filename) ".pdf")
         && negb (String.eqb content_type "application/pdf")
      then Some (HTTPException 400 NOT_A_PDF)
      else
        (* Persist upload to a temp file *)
        '(written, _) ← write_chunks fuel file [] 0%nat;
        match extract_text written with
        | inl exc => Some (HTTPException 500 ("Failed to read PDF: " +:+ exc))
        | inr text =>
            let text := or_default text EmptyString in
            (* Deterministic baseline *)
            match _extract_lease_facts_from_text date_parser_parse text with
            | Raise e => Some (Unhandled e)
            | Ok regex_facts =>
                (* Optional LLM enhancement if API key present *)
                let llm_facts :=
                  if PyStr.truthy api_key
                  then match _call_openai_json (_build_llm_prompt text) with
                       | Done r => r
                       | Failed _ => ∅
                       end
                  else ∅ in
                (* Merge, preferring regex facts, filling gaps with LLM *)
                let merged := _merge_facts regex_facts llm_facts in
                Some (Returned (_format_facts_output merged))
            end
        end
  end.

End Model.

End Service.
(** * Vocabulary of the properties *)

Import Re Patterns Lease.

(** [binds_group r]: every successful match of [r] goes through group 1. *)
Fixpoint binds_group (r : regex) : bool :=
  match r with
  | Grp _ => true
  | Cat r1 r2 => binds_group r1 || binds_group r2
  | Alt r1 r2 => binds_group r1 && binds_group r2
  | _ => false
  end.

(** The two ways a quantifier can go on: stop here, or read one more
    character. *)
Definition rep_stop {T : Type} (k : cursor → option T) (lo : nat)
    (prev : option ascii) (s : string) : option T :=
  match lo with O => k (prev, s) | S _ => None end.

Definition rep_more {T : Type} (ic greedy : bool) (cs : cset)
    (k : cursor → option T) (lo : nat) (hi : option nat) (s : string)
    : option T :=
  match s with
  | String c s' =>
      if may_repeat hi && in_cset ic cs c
      then rep ic greedy cs (Nat.pred lo) (dec_hi hi) (Some c) s' k
      else None
  | EmptyString => None
  end.

(** What [_first_match] captures: group 1 of the first match, stripped. *)
Definition capture (pattern : regex) (text : string) : option string :=
  match search pattern text IGNORECASE with
  | Some mo => PyStr.strip <$> m_group1 mo
  | None => None
  end.

(** The dictionary literal that [_extract_lease_facts_from_text] returns. *)
Definition fact_record
    (tenant landlord address suite combined square_feet commencement
     expiration share base_year deposit : option string)
    : gmap string (option string) :=
  list_to_map
    [("tenant_name", tenant);
     ("landlord_name", landlord);
     ("property_address", address);
     ("suite", suite);
     ("property_address_and_suite", combined);
     ("total_square_feet", square_feet);
     ("lease_commencement_date", commencement);
     ("lease_expiration_date", expiration);
     ("proportionate_share", share);
     ("base_year", base_year);
     ("security_deposit", deposit)].

(** The values of the fields that are computed from a capture. *)
Definition square_feet_of (text : string) : option string :=
  let raw := capture square_feet_pat text in
  if PyStr.truthy raw
  then (λ raw, sub_empty non_numeric_pat raw NOFLAG) <$> raw
  else None.

Definition date_of (parse : string → res Date.datetime) (pattern : regex)
    (text : string) : option string :=
  let raw := capture pattern text in
  if PyStr.truthy raw then raw ≫= _normalize_date parse else None.

Definition deposit_of (text : string) : option string :=
  let amount := capture deposit_amount_pat text in
  let deposit :=
    if negb (PyStr.truthy amount)
    then match search deposit_none_pat text IGNORECASE with
         | Some _ => Some "None"
         | None => None
         end
    else amount in
  if PyStr.truthy deposit then deposit else None.

(** The canonical form [DD-MM-YYYY]: ten characters, digits around two
    dashes, that read as a day, a month and a year of the calendar. *)
Definition digit_value (c : ascii) : N := PyChar.code c - 48.

Definition canonical_date (s : string) : bool :=
  match s with
  | String d1 (String d2 (String h1 (String m1 (String m2 (String h2
      (String y1 (String y2 (String y3 (String y4 EmptyString))))))))) =>
      forallb PyChar.isdigit [d1; d2; m1; m2; y1; y2; y3; y4]
      && Ascii.eqb h1 DASH && Ascii.eqb h2 DASH
      && Date.valid
           (1000 * digit_value y1 + 100 * digit_value y2
            + 10 * digit_value y3 + digit_value y4)
           (10 * digit_value m1 + digit_value m2)
           (10 * digit_value d1 + digit_value d2)
  | _ => false
  end.

(** The number that a run of digits reads as. *)
Fixpoint decimal_value (s : string) (acc : N) : N :=
  match s with
  | EmptyString => acc
  | String c s' => decimal_value s' (10 * acc + digit_value c)
  end.

Fixpoint digits_only (s : string) : bool :=
  match s with
  | EmptyString => true
  | String c s' => PyChar.isdigit c && digits_only s'
  end.

(** A date as [strftime("%d-%m-%Y")] prints it: two digits, a dash, two
    digits, a dash and one to four digits, which read as a day, a month and
    a year of the calendar.  The canonical form is the case of four digits
    for the year. *)
Definition printed_date (s : string) : bool :=
  match s with
  | String d1 (String d2 (String h1 (String m1 (String m2 (String h2 y))))) =>
      forallb PyChar.isdigit [d1; d2; m1; m2] && digits_only y
      && (1 <=? String.length y)%nat && (String.length y <=? 4)%nat
      && Ascii.eqb h1 DASH && Ascii.eqb h2 DASH
      && Date.valid (decimal_value y 0)
           (10 * digit_value m1 + digit_value m2)
           (10 * digit_value d1 + digit_value d2)
  | _ => false
  end.


(** The derived field as the specification documents it:
    [{address} Suite {suite}] when both are present, the part that is
    present when only one is, missing when none is. *)
Definition documented_address_and_suite (address suite : option string)
    : option string :=
  match address, suite with
  | Some a, Some s => Some (a +:+ " Suite " +:+ s)
  | Some a, None => Some a
  | None, Some s => Some s
  | None, None => None
  end.

Definition derived_field_law (d : gmap string (option string)) : Prop :=
  get d "property_address_and_suite" =
    documented_address_and_suite (get d "property_address") (get d "suite").

(** The derived field as the extraction computes it: an empty string counts
    as missing, and a suite without an address is written
    [Suite {suite}]. *)
Definition derived_address_and_suite (address suite : option string)
    : option string :=
  match blank_to_none address, blank_to_none suite with
  | Some a, Some s => Some (a +:+ " Suite " +:+ s)
  | Some a, None => Some a
  | None, Some s => Some ("Suite " +:+ s)
  | None, None => None
  end.

Definition derived_field_ok (d : gmap string (option string)) : Prop :=
  get d "property_address_and_suite" =
    derived_address_and_suite (get d "property_address") (get d "suite").

(** The merged value as the specification documents it: the primary value
    unless it is the missing sentinel. *)
Definition documented_merge_value (p s : option string) : option string :=
  match p with
  | Some v => Some v
  | None => s
  end.

(** Digits and the decimal point only. *)
Fixpoint numeric_only (s : string) : bool :=
  match s with
  | EmptyString => true
  | String c s' => (PyChar.isdigit c || Ascii.eqb c DOT) && numeric_only s'
  end.


(** ** Sample inputs *)

Definition TAB : ascii := ch 9.

(** Lines joined by line feeds, each line terminated. *)
Fixpoint unlines (ls : list string) : string :=
  match ls with
  | [] => EmptyString
  | l :: ls' => l +:+ String PyChar.LF (unlines ls')
  end.

Definition sample_lease : string :=
  unlines ["LEASE AGREEMENT";
           "Tenant: Acme Corp";
           "Landlord: Big Realty LLC";
           "Address: 123 Main Street, Suite 4B";
           "Total Square Feet: 12,345";
           "Commencement Date: March 1, 2023";
           "Security Deposit: None"].


(** A date parser that rejects everything. *)
Definition no_dates : string → res Date.datetime := λ _, Raise ParserError.

Definition march_1_2023 : Date.datetime := Date.Datetime 2023 3 1 eq_refl.

Definition march_1_200 : Date.datetime := Date.Datetime 200 3 1 eq_refl.

(** A date parser that reads the year of [March 1, 200] as it is written. *)
Definition parse_year_200 : string → res Date.datetime :=
  λ value, if String.eqb value "March 1, 200" then Ok march_1_200
           else Raise ParserError.

(** A date parser that knows one date. *)
Definition parse_march : string → res Date.datetime :=
  λ value, if String.eqb value "March 1, 2023" then Ok march_1_2023
           else Raise ParserError.

Definition suite_only : gmap string (option string) :=
  {[ "suite" := Some "4B"; "property_address_and_suite" := Some "4B" ]}.

Definition acme_only : gmap string (option string) :=
  {[ "tenant_name" := Some "Acme Corp" ]}.

Definition sample_facts : gmap string (option string) :=
  list_to_map [("suite", Some "4B"); ("tenant_name", Some EmptyString);
               ("page_count", Some "12")].

(** ** Vocabulary of the further properties *)

Import Service.

(** *** What a match reads *)

(** Every character of [s] satisfies [p]. *)
Fixpoint all_chars (p : ascii → bool) (s : string) : bool :=
  match s with
  | EmptyString => true
  | String c s' => p c && all_chars p s'
  end.

(** [c] matches some character of the literal [l]. *)
Fixpoint lit_admits (ic : bool) (l : string) (c : ascii) : bool :=
  match l with
  | EmptyString => false
  | String d l' => PyChar.eqb_flag ic d c || lit_admits ic l' c
  end.

(** The characters a match of [r] can read. *)
Fixpoint admits (ic : bool) (r : regex) (c : ascii) : bool :=
  match r with
  | Eps | WordB | Bos => false
  | Set_ cs => in_cset ic cs c
  | Lit l => lit_admits ic l c
  | Cat r1 r2 | Alt r1 r2 => admits ic r1 c || admits ic r2 c
  | Opt r1 | Grp r1 => admits ic r1 c
  | Rep _ _ _ cs => in_cset ic cs c
  end.

(** Every match of [r] reads a text that satisfies [Φ]. *)
Definition reads_only (ic : bool) (Φ : string → Prop) (r : regex) : Prop :=
  ∀ (R : Type) cur g (k : cursor → option string → option R) x,
    m ic r cur g k = Some x →
    ∃ a cur' g', snd cur = a +:+ snd cur' ∧ Φ a ∧ k cur' g' = Some x.

(** Every capturing group of [r] reads a text that satisfies [Φ]. *)
Fixpoint groups_read (ic : bool) (Φ : string → Prop) (r : regex) : Prop :=
  match r with
  | Grp r1 => reads_only ic Φ r1
  | Cat r1 r2 | Alt r1 r2 => groups_read ic Φ r1 ∧ groups_read ic Φ r2
  | Opt r1 => groups_read ic Φ r1
  | _ => True
  end.

(** Group 1, when set, satisfies [Φ]. *)
Definition group_is (Φ : string → Prop) (g : option string) : Prop :=
  ∀ a, g = Some a → Φ a.

(** *** The shapes of the fields *)

(** No leading and no trailing character of [s] satisfies [p]. *)
Definition head_free (p : ascii → bool) (s : string) : bool :=
  match s with
  | EmptyString => true
  | String c _ => negb (p c)
  end.

Fixpoint last_free (p : ascii → bool) (s : string) : bool :=
  match s with
  | EmptyString => true
  | String c EmptyString => negb (p c)
  | String _ s' => last_free p s'
  end.

Definition not_space (c : ascii) : bool := negb (PyChar.isspace c).
Definition not_LF (c : ascii) : bool := negb (Ascii.eqb c PyChar.LF).

(** A check on a field that may be missing. *)
Definition when_present (φ : string → bool) (v : option string) : bool :=
  match v with
  | Some s => φ s
  | None => true
  end.

Definition is_word_or_dash (c : ascii) : bool :=
  in_cset IGNORECASE word_or_dash c.

(** What the suite designator looks like. *)
Definition suite_shape (s : string) : bool :=
  negb (PyStr.is_empty s) && all_chars is_word_or_dash s.

(** A single line without blanks around it. *)
Definition trimmed_line (s : string) : bool :=
  all_chars not_LF s && head_free PyChar.isspace s
  && last_free PyChar.isspace s.

Definition four_digits_shape (s : string) : bool :=
  Nat.eqb (String.length s) 4 && all_chars PyChar.isdigit s.

Definition not_linebreak (c : ascii) : bool := negb (PyChar.islinebreak c).

Definition deposit_char (c : ascii) : bool :=
  PyChar.isdigit c || Ascii.eqb c COMMA || Ascii.eqb c DOT.

(** The amount as captured, or the literal [None]. *)
Definition deposit_shape (s : string) : bool :=
  String.eqb s "None" || (negb (PyStr.is_empty s) && all_chars deposit_char s).

Definition PERCENT : ascii := ch 37.

Definition share_char (c : ascii) : bool :=
  PyChar.isdigit c || Ascii.eqb c DOT || PyChar.isspace c
  || Ascii.eqb c PERCENT.

Fixpoint ends_with_char (d : ascii) (s : string) : bool :=
  match s with
  | EmptyString => false
  | String c EmptyString => Ascii.eqb c d
  | String _ s' => ends_with_char d s'
  end.

(** Digits, a decimal point and blanks, closed by a percent sign. *)
Definition share_shape (s : string) : bool :=
  all_chars share_char s && ends_with_char PERCENT s.

(** *** The service *)

(** The test of lines 46 and 280 passes: the name ends in [.pdf], whatever
    the case, or the declared type is [application/pdf]. *)
Definition looks_like_pdf (original_filename content_type : string) : bool :=
  endswith (lower original_filename) ".pdf"
  || String.eqb content_type "application/pdf".

(** [needle] is a prefix of [s]. *)
Fixpoint has_prefix (needle s : string) : bool :=
  match needle, s with
  | EmptyString, _ => true
  | String a needle', String b s' => Ascii.eqb a b && has_prefix needle' s'
  | _, _ => false
  end.

(** [needle in s] *)
Fixpoint occurs (needle s : string) : bool :=
  has_prefix needle s
  || match s with
     | EmptyString => false
     | String _ s' => occurs needle s'
     end.

(** [", ".join(keys)] *)
Fixpoint comma_joined (keys : list string) : string :=
  match keys with
  | [] => EmptyString
  | [k] => k
  | k :: keys' => k +:+ ", " +:+ comma_joined keys'
  end.

(** Lines 305-311 of [extract_lease_facts]: the record of the model that
    the endpoint merges, [{}] without a key or when the call fails. *)
Definition llm_facts_of (sdk_available : bool)
    (chat_completion : nat → string → string → attempt (option string))
    (json_loads : string → option (gmap string (option string)))
    (api_key : option string) (text : string)
    : gmap string (option string) :=
  if PyStr.truthy api_key
  then match _call_openai_json sdk_available chat_completion json_loads
               (_build_llm_prompt text) with
       | Done r => r
       | Failed _ => ∅
       end
  else ∅.

(** ** Sample requests *)

(** An upload that was read before: the name is in capitals, the declared
    type is not that of a PDF and the content does not start like one. *)
Definition sample_upload : UploadFile :=
  {| filename := Some "Notes.PDF"; content_type := Some "text/plain";
     body := [Byte.x68; Byte.x69]; position := 1 |}.

Definition sample_temporary_name (suffix : string) : string :=
  "/tmp/tmpk3" +:+ suffix.

(** An upload without a name, and two behaviours of the text extractor. *)
Definition sample_lease_upload : UploadFile :=
  {| filename := None; content_type := Some "text/plain";
     body := PDF_MAGIC; position := 0 |}.

Definition text_reader (content : list Byte.byte) : string + option string :=
  inr (Some "Tenant: Acme Corp").


(** A client that always fails, one that answers from the fourth attempt
    on, and one that answers from the second attempt on with a JSON array;
    a decoder that reads no object. *)
Definition failing_client (n : nat) (model prompt : string)
    : attempt (option string) :=
  Failed (APIError "timeout").

Definition late_client (n : nat) (model prompt : string)
    : attempt (option string) :=
  if (n <? 3)%nat then Failed (APIError "timeout") else Done (Some "{}").

Definition second_time_client (n : nat) (model prompt : string)
    : attempt (option string) :=
  match n with
  | O => Failed (APIError "timeout")
  | S _ => Done (Some "[]")
  end.

Definition no_json (content : string) : option (gmap string (option string)) :=
  None.

(** A client that answers at once, and a decoder that reads an object with
    the name of the landlord and a name for the tenant. *)
Definition answering_client (n : nat) (model prompt : string)
    : attempt (option string) :=
  Done (Some "{}").

Definition landlord_json (content : string)
    : option (gmap string (option string)) :=
  Some (list_to_map [("landlord_name", Some "Beta LLC");
                     ("tenant_name", Some "Gamma Inc")]).

(** A text of [n] times the character [c]. *)
Fixpoint repeated (n : nat) (c : ascii) : string :=
  match n with
  | O => EmptyString
  | S n' => String c (repeated n' c)
  end.

(** * Properties *)

(** ** The schema, the formatter and the merger *)

Section Records.

Implicit Types facts primary secondary : gmap string (option string).
Implicit Types k key : string.

Lemma schema_dom : dom LEASE_FACTS_SCHEMA = list_to_set LEASE_KEYS.
Proof. unfold LEASE_FACTS_SCHEMA. by rewrite dom_list_to_map_L. Qed.

Lemma schema_lookup_key k :
  k ∈ LEASE_KEYS → LEASE_FACTS_SCHEMA !! k = Some None.
Proof.
  intros H. unfold LEASE_KEYS in H. simpl in H. set_unfold.
  repeat (destruct H as [->|H]; [reflexivity|]). done.
Qed.

Lemma schema_lookup_other k :
  k ∉ LEASE_KEYS → LEASE_FACTS_SCHEMA !! k = None.
Proof.
  intros H. apply not_elem_of_dom. by rewrite schema_dom, elem_of_list_to_set.
Qed.

Lemma blank_to_none_idemp v : blank_to_none (blank_to_none v) = blank_to_none v.
Proof. destruct v as [[|c s]|]; reflexivity. Qed.

Lemma blank_to_none_truthy v :
  blank_to_none v = if PyStr.truthy v then v else None.
Proof. destruct v as [[|c s]|]; reflexivity. Qed.

(** The formatter, key by key. *)
Lemma format_lookup facts k :
  _format_facts_output facts !! k =
    if decide (k ∈ LEASE_KEYS) then Some (blank_to_none (get facts k))
    else None.
Proof.
  unfold _format_facts_output, get.
  rewrite lookup_union, lookup_fmap, map_lookup_filter.
  case_decide as Hk.
  - rewrite (schema_lookup_key _ Hk).
    destruct (facts !! k) as [v|] eqn:E; simpl; [|done].
    rewrite option_guard_True; [done|].
    simpl. by rewrite schema_dom, elem_of_list_to_set.
  - rewrite (schema_lookup_other _ Hk).
    destruct (facts !! k) as [v|] eqn:E; simpl; [|done].
    rewrite option_guard_False; [done|].
    simpl. by rewrite schema_dom, elem_of_list_to_set.
Qed.

Lemma foldl_insert_lookup (f : string → option string) (keys : list string) :
  ∀ (m0 : gmap string (option string)) k,
    foldl (λ merged key, <[key := f key]> merged) m0 keys !! k =
      if decide (k ∈ keys) then Some (f k) else m0 !! k.
Proof.
  induction keys as [|x keys IH]; intros m0 k; cbn [foldl].
  - by rewrite decide_False by apply not_elem_of_nil.
  - rewrite IH. destruct (decide (k = x)) as [->|Hne].
    + rewrite lookup_insert_eq.
      rewrite (decide_True (P := x ∈ x :: keys)) by left.
      by destruct (decide (x ∈ keys)).
    + rewrite lookup_insert_ne by done.
      destruct (decide (k ∈ keys)) as [Hin|Hnin].
      * by rewrite decide_True by (by right).
      * rewrite decide_False; [done|].
        rewrite elem_of_cons. by intros [?|?].
Qed.

(** The merger, key by key. *)
Lemma merge_lookup primary secondary k :
  _merge_facts primary secondary !! k =
    if decide (k ∈ LEASE_KEYS)
    then Some (PyStr.or_ (get primary k) (get secondary k))
    else None.
Proof.
  unfold _merge_facts.
  rewrite (foldl_insert_lookup
             (λ key, PyStr.or_ (get primary key) (get secondary key))).
  case_decide as Hk; [done|]. by apply schema_lookup_other.
Qed.

Lemma dom_of_lookup (m : gmap string (option string)) :
  (∀ k, is_Some (m !! k) ↔ k ∈ LEASE_KEYS) →
  dom m = list_to_set LEASE_KEYS.
Proof.
  intros H. apply set_eq. intros k.
  by rewrite elem_of_dom, H, elem_of_list_to_set.
Qed.

End Records.

(** Case analysis on the scrutinee of a match in a hypothesis. *)
Ltac break_all :=
  repeat match goal with
         | H : context [match ?e with _ => _ end] |- _ =>
             destruct e eqn:?; simplify_eq
         end.

(** ** The matcher *)

Section Engine.
Context {R R' : Type}.
Variable ic : bool.

Lemma rep_unfold {T : Type} greedy cs (k : cursor → option T) lo hi prev s :
  rep ic greedy cs lo hi prev s k =
    if greedy
    then match rep_more ic greedy cs k lo hi s with
         | Some x => Some x
         | None => rep_stop k lo prev s
         end
    else match rep_stop k lo prev s with
         | Some x => Some x
         | None => rep_more ic greedy cs k lo hi s
         end.
Proof. by destruct s. Qed.




Lemma rep_reaches greedy cs (k : cursor → option R) x :
  ∀ s lo hi prev,
    rep ic greedy cs lo hi prev s k = Some x → ∃ cur', k cur' = Some x.
Proof.
  induction s as [|c s IH]; intros lo hi prev H; simpl in H;
    break_all; eauto.
Qed.

Lemma m_reaches r :
  ∀ cur g (k : cursor → option string → option R) x,
    m ic r cur g k = Some x →
    ∃ cur' g', k cur' g' = Some x
               ∧ (binds_group r = true ∨ is_Some g → is_Some g').
Proof.
  induction r as [|cs|l|r1 IH1 r2 IH2|r1 IH1 r2 IH2|r1 IH1
                 |greedy lo hi cs|r1 IH1| |];
    intros cur g k x H; simpl in H.
  - exists cur, g. split; [done|]. by intros [?|?].
  - break_all.
    eexists _, g. split; [done|]. by intros [?|?].
  - break_all.
    eexists _, g. split; [done|]. by intros [?|?].
  - apply IH1 in H as (cur1 & g1 & H & Hg1).
    apply IH2 in H as (cur2 & g2 & H & Hg2).
    exists cur2, g2. split; [done|]. simpl.
    intros [Hb|Hg].
    + apply orb_true_iff in Hb as [Hb|Hb]; apply Hg2; [right|left]; auto.
    + apply Hg2. right. apply Hg1. by right.
  - simpl. destruct (m ic r1 cur g k) as [y|] eqn:E.
    + inversion H; subst.
      apply IH1 in E as (cur1 & g1 & E & Hg). exists cur1, g1.
      split; [done|]. intros [Hb|?]; apply Hg; [left|right]; [|done].
      by apply andb_true_iff in Hb as [? _].
    + apply IH2 in H as (cur1 & g1 & H & Hg). exists cur1, g1.
      split; [done|]. intros [Hb|?]; apply Hg; [left|right]; [|done].
      by apply andb_true_iff in Hb as [_ ?].
  - destruct (m ic r1 cur g k) as [y|] eqn:E.
    + inversion H; subst.
      apply IH1 in E as (cur1 & g1 & E & Hg). exists cur1, g1.
      split; [done|]. intros [?|?]; [done|]. apply Hg. by right.
    + exists cur, g. split; [done|]. by intros [?|?].
  - apply rep_reaches in H as [cur' H].
    exists cur', g. split; [done|]. by intros [?|?].
  - apply IH1 in H as (cur1 & g1 & H & _). eauto.
  - break_all.
    exists cur, g. split; [done|]. by intros [?|?].
  - break_all.
    exists cur, g. split; [done|]. by intros [?|?].
Qed.



End Engine.

(** ** The pipeline never raises *)

Section Pipeline.

Lemma search_from_group ic r :
  binds_group r = true →
  ∀ s start prev mo,
    search_from ic r start prev s = Some mo → is_Some (m_group1 mo).
Proof.
  intros Hb. induction s as [|c s IH]; intros start prev mo H; simpl in H.
  - destruct (match_at ic r (prev, EmptyString)) as [[g cur']|] eqn:E;
      [|done].
    apply m_reaches in E as (cur1 & g1 & [= <- <-] & Hg).
    inversion H; subst; simpl. apply Hg. by left.
  - destruct (match_at ic r (prev, String c s)) as [[g cur']|] eqn:E.
    + apply m_reaches in E as (cur1 & g1 & [= <- <-] & Hg).
      inversion H; subst; simpl. apply Hg. by left.
    + eapply IH, H.
Qed.

Lemma group1_strip_ok r text mo :
  binds_group r = true →
  search r text IGNORECASE = Some mo →
  group1_strip mo = Ok (default EmptyString (PyStr.strip <$> m_group1 mo))
  ∧ is_Some (m_group1 mo).
Proof.
  intros Hb H. apply (search_from_group _ _ Hb) in H as [g Hg].
  unfold group1_strip. rewrite Hg. eauto.
Qed.

Lemma first_match_ok r text :
  binds_group r = true →
  _first_match r text IGNORECASE = Ok (capture r text).
Proof.
  intros Hb. unfold _first_match, capture.
  destruct (search r text IGNORECASE) as [mo|] eqn:E; [|done].
  destruct (group1_strip_ok _ _ _ Hb E) as [-> [g ->]]. done.
Qed.

Lemma suite_group_ok text mo :
  search suite_pat text IGNORECASE = Some mo →
  ∃ g, group1_strip mo = Ok g.
Proof.
  intros H. apply group1_strip_ok in H as [-> _]; [eauto | done].
Qed.

Lemma first_suite_ok cand_lines : ∃ v, first_suite cand_lines = Ok v.
Proof.
  induction cand_lines as [|cl rest IH]; simpl; [eauto|].
  destruct (search suite_pat cl IGNORECASE) as [mo|] eqn:E; [|done].
  destruct (suite_group_ok _ _ E) as [g ->]. simpl. eauto.
Qed.

Lemma label_capture_ok text : ∃ a s, label_capture text = Ok (a, s).
Proof.
  unfold label_capture.
  destruct (search address_label_pat text IGNORECASE) as [mo|] eqn:E;
    [|eauto].
  apply group1_strip_ok in E as [-> _]; [|done]. simpl.
  destruct (search suite_pat _ IGNORECASE) as [mo'|] eqn:E'; [|eauto].
  destruct (suite_group_ok _ _ E') as [g ->]. simpl. eauto.
Qed.

Lemma street_scan_ok lines a s : ∃ a' s', street_scan lines a s = Ok (a', s').
Proof.
  induction lines as [|l rest IH]; [simpl; eauto|].
  cbn [street_scan]; cbv zeta.
  destruct (search street_pat l IGNORECASE); [|done].
  destruct (first_suite_ok
              (l :: match rest with next :: _ => [next] | [] => [] end))
    as [v ->].
  simpl. eauto.
Qed.

Lemma global_suite_ok text s : ∃ s', global_suite text s = Ok s'.
Proof.
  unfold global_suite.
  destruct (search suite_pat text IGNORECASE) as [mo|] eqn:E; [|eauto].
  destruct (suite_group_ok _ _ E) as [g ->]. simpl. eauto.
Qed.

Lemma extract_address_and_suite_ok text :
  ∃ a s, _extract_address_and_suite text = Ok (a, s).
Proof.
  unfold _extract_address_and_suite.
  destruct (label_capture_ok text) as (a & s & ->). simpl.
  assert (∃ a' s',
            (if PyStr.truthy a then Ok (a, s)
             else street_scan (PyStr.strip <$> PyStr.splitlines text) a s)
            = Ok (a', s')) as (a' & s' & ->).
  { destruct (PyStr.truthy a); [eauto | apply street_scan_ok]. }
  simpl.
  assert (∃ s'', (if PyStr.truthy s' then Ok s' else global_suite text s')
                 = Ok s'') as (s'' & ->).
  { destruct (PyStr.truthy s'); [eauto | apply global_suite_ok]. }
  simpl. eauto.
Qed.

End Pipeline.

(** ** Dates *)

Section Dates.

(** Names the quotients and remainders of the goal, so that [lia] sees
    them as unknowns. *)
Ltac name_div_mod :=
  repeat match goal with
         | |- context [?a mod ?b] =>
             let r := fresh "r" in
             set (r := a mod b) in *; clearbody r
         | |- context [?a / ?b] =>
             let q := fresh "q" in
             set (q := a / b) in *; clearbody q
         | _ : context [?a mod ?b] |- _ =>
             let r := fresh "r" in
             set (r := a mod b) in *; clearbody r
         | _ : context [?a / ?b] |- _ =>
             let q := fresh "q" in
             set (q := a / b) in *; clearbody q
         end.

Lemma code_digit n : PyChar.code (Date.digit n) = 48 + n mod 10.
Proof.
  unfold PyChar.code, Date.digit. apply N_ascii_embedding.
  pose proof (N.mod_upper_bound n 10 ltac:(done)). name_div_mod. lia.
Qed.

Lemma isdigit_digit n : PyChar.isdigit (Date.digit n) = true.
Proof.
  unfold PyChar.isdigit, PyChar.between. rewrite code_digit.
  pose proof (N.mod_upper_bound n 10 ltac:(done)).
  apply andb_true_iff. split; apply N.leb_le; name_div_mod; lia.
Qed.

Lemma digit_value_digit n : digit_value (Date.digit n) = n mod 10.
Proof. unfold digit_value. rewrite code_digit. name_div_mod. lia. Qed.

Lemma two_digits n : n < 100 → 10 * ((n / 10) mod 10) + n mod 10 = n.
Proof.
  intros H. rewrite (N.mod_small (n / 10)).
  - pose proof (N.div_mod n 10 ltac:(done)). name_div_mod. lia.
  - apply N.Div0.div_lt_upper_bound. lia.
Qed.

Lemma four_digits n :
  n < 10000 →
  1000 * ((n / 1000) mod 10) + 100 * ((n / 100) mod 10)
  + 10 * ((n / 10) mod 10) + n mod 10 = n.
Proof.
  intros H.
  assert (n / 1000 < 10) by (apply N.Div0.div_lt_upper_bound; lia).
  rewrite (N.mod_small (n / 1000)) by done.
  assert (E2 : n / 10 / 10 = n / 100) by (by rewrite N.Div0.div_div).
  assert (E3 : n / 100 / 10 = n / 1000) by (by rewrite N.Div0.div_div).
  pose proof (N.div_mod n 10 ltac:(done)) as H1.
  pose proof (N.div_mod (n / 10) 10 ltac:(done)) as H2.
  pose proof (N.div_mod (n / 100) 10 ltac:(done)) as H3.
  rewrite E2 in H2. rewrite E3 in H3. clear E2 E3.
  name_div_mod. lia.
Qed.

Lemma valid_bounds y mo d :
  Date.valid y mo d = true → y < 10000 ∧ mo < 100 ∧ d < 100.
Proof.
  unfold Date.valid, PyChar.between, Date.days_in_month.
  intros H. repeat (apply andb_true_iff in H as [H ?]).
  repeat match goal with
         | H : (_ <=? _) = true |- _ => apply N.leb_le in H
         | H : (_ && _) = true |- _ => apply andb_true_iff in H as [? ?]
         end.
  repeat split; try lia.
  repeat case_match; lia.
Qed.

Lemma three_digits n :
  n < 1000 → 100 * ((n / 100) mod 10) + 10 * ((n / 10) mod 10) + n mod 10 = n.
Proof.
  intros H.
  assert (n / 100 < 10) by (apply N.Div0.div_lt_upper_bound; lia).
  rewrite (N.mod_small (n / 100)) by done.
  assert (E2 : n / 10 / 10 = n / 100) by (by rewrite N.Div0.div_div).
  pose proof (N.div_mod n 10 ltac:(done)) as H1.
  pose proof (N.div_mod (n / 10) 10 ltac:(done)) as H2.
  rewrite E2 in H2. clear E2.
  name_div_mod. lia.
Qed.

(** The year as printed: its digits and the number they read as. *)
Lemma year_Y_printed n :
  1 ≤ n → n < 10000 →
  digits_only (Date.year_Y n) = true
  ∧ (1 ≤ String.length (Date.year_Y n) ≤ 4)%nat
  ∧ decimal_value (Date.year_Y n) 0 = n.
Proof.
  intros Hlo Hhi. unfold Date.year_Y.
  destruct (N.ltb_spec n 10) as [H1|H1];
    [|destruct (N.ltb_spec n 100) as [H2|H2];
      [|destruct (N.ltb_spec n 1000) as [H3|H3]]];
    cbn [digits_only decimal_value String.length];
    rewrite !isdigit_digit, !digit_value_digit;
    (split; [done|]); (split; [lia|]).
  - rewrite N.mod_small by lia. lia.
  - pose proof (two_digits n ltac:(lia)). lia.
  - pose proof (three_digits n ltac:(lia)). lia.
  - pose proof (four_digits n ltac:(lia)). lia.
Qed.

(** What [strftime] prints is a printed date. *)
Lemma strftime_printed dt : printed_date (Date.strftime_d_m_Y dt) = true.
Proof.
  destruct dt as [y mo d Hok].
  destruct (valid_bounds _ _ _ Hok) as (Hy & Hm & Hd).
  assert (1 ≤ y) as Hy1.
  { unfold Date.valid, PyChar.between in Hok.
    repeat (apply andb_true_iff in Hok as [Hok ?]).
    by apply N.leb_le. }
  destruct (year_Y_printed y Hy1 Hy) as (Hdig & [Hl1 Hl4] & Hval).
  unfold Date.strftime_d_m_Y, Date.pad2. cbn [Date.year Date.month Date.day].
  revert Hdig Hl1 Hl4 Hval. generalize (Date.year_Y y).
  intros ys Hdig Hl1 Hl4 Hval. simpl.
  change (EmptyString +:+ ys) with ys.
  rewrite !isdigit_digit, !digit_value_digit, Hdig, Hval.
  rewrite (two_digits _ Hd), (two_digits _ Hm), Hok.
  apply Nat.leb_le in Hl4. rewrite Hl4.
  by destruct ys; [simpl in Hl1; lia|].
Qed.

(** It is in the canonical form exactly when the year has four digits. *)
Lemma strftime_canonical dt :
  canonical_date (Date.strftime_d_m_Y dt) = true ↔ 1000 ≤ Date.year dt.
Proof.
  destruct dt as [y mo d Hok].
  destruct (valid_bounds _ _ _ Hok) as (Hy & Hm & Hd).
  unfold Date.strftime_d_m_Y, Date.pad2, Date.year_Y; simpl.
  destruct (N.ltb_spec y 10); [simpl; split; [done | lia]|].
  destruct (N.ltb_spec y 100); [simpl; split; [done | lia]|].
  destruct (N.ltb_spec y 1000); [simpl; split; [done | lia]|].
  split; [done|]. intros _. simpl.
  rewrite !isdigit_digit, !digit_value_digit.
  rewrite (two_digits _ Hd), (two_digits _ Hm), (four_digits _ Hy).
  by rewrite Hok.
Qed.

End Dates.

(** ** Continuations and sequences *)

Section Extensionality.
Context {R : Type}.
Variable ic : bool.



End Extensionality.

Section Prefixes.

Variable ic : bool.




End Prefixes.


(** ** Finding a statement inside a text *)





(** ** Finding the address line inside a text *)

Lemma length_app (a s : string) :
  String.length (a +:+ s) = (String.length a + String.length s)%nat.
Proof. induction a as [|c a IH]; simpl; [done|]. by rewrite IH. Qed.

Lemma substring_prefix (a s : string) :
  String.substring 0 (String.length a) (a +:+ s) = a.
Proof. induction a as [|c a IH]; simpl; [by destruct s|]. by rewrite IH. Qed.

Lemma consumed_prefix p q (a s : string) : consumed (p, a +:+ s) (q, s) = a.
Proof.
  unfold consumed. simpl. rewrite length_app.
  replace (String.length a + String.length s - String.length s)%nat
    with (String.length a) by lia.
  apply substring_prefix.
Qed.






(** ** The extraction in closed form *)

Section ClosedForm.

Lemma fact_record_lookup v1 v2 v3 v4 v5 v6 v7 v8 v9 v10 v11 :
  let d := fact_record v1 v2 v3 v4 v5 v6 v7 v8 v9 v10 v11 in
  d !! "tenant_name" = Some v1 ∧ d !! "landlord_name" = Some v2
  ∧ d !! "property_address" = Some v3 ∧ d !! "suite" = Some v4
  ∧ d !! "property_address_and_suite" = Some v5
  ∧ d !! "total_square_feet" = Some v6
  ∧ d !! "lease_commencement_date" = Some v7
  ∧ d !! "lease_expiration_date" = Some v8
  ∧ d !! "proportionate_share" = Some v9
  ∧ d !! "base_year" = Some v10
  ∧ d !! "security_deposit" = Some v11.
Proof. repeat split; vm_compute; reflexivity. Qed.

Lemma fact_record_dom v1 v2 v3 v4 v5 v6 v7 v8 v9 v10 v11 :
  dom (fact_record v1 v2 v3 v4 v5 v6 v7 v8 v9 v10 v11)
  = list_to_set LEASE_KEYS.
Proof. unfold fact_record. by rewrite dom_list_to_map_L. Qed.

(** The extraction in closed form: it returns, and returns this record. *)
Lemma extract_closed_form parse text :
  ∃ address suite,
    _extract_address_and_suite text = Ok (address, suite)
    ∧ _extract_lease_facts_from_text parse text =
        Ok (fact_record
              (capture tenant_pat text) (capture landlord_pat text)
              address suite (combined_addr address suite)
              (square_feet_of text)
              (date_of parse commencement_pat text)
              (date_of parse expiration_pat text)
              (capture proportionate_share_pat text)
              (capture base_year_pat text)
              (deposit_of text)).
Proof.
  destruct (extract_address_and_suite_ok text) as (address & suite & Ha).
  exists address, suite. split; [done|].
  unfold _extract_lease_facts_from_text.
  rewrite !first_match_ok by reflexivity.
  rewrite Ha. reflexivity.
Qed.

Lemma extract_fields parse text address suite :
  _extract_address_and_suite text = Ok (address, suite) →
  ∃ rec,
    _extract_lease_facts_from_text parse text = Ok rec
    ∧ dom rec = list_to_set LEASE_KEYS
    ∧ rec !! "tenant_name" = Some (capture tenant_pat text)
    ∧ rec !! "landlord_name" = Some (capture landlord_pat text)
    ∧ rec !! "property_address" = Some address
    ∧ rec !! "suite" = Some suite
    ∧ rec !! "property_address_and_suite"
      = Some (combined_addr address suite)
    ∧ rec !! "total_square_feet" = Some (square_feet_of text)
    ∧ rec !! "lease_commencement_date"
      = Some (date_of parse commencement_pat text)
    ∧ rec !! "lease_expiration_date"
      = Some (date_of parse expiration_pat text)
    ∧ rec !! "proportionate_share"
      = Some (capture proportionate_share_pat text)
    ∧ rec !! "base_year" = Some (capture base_year_pat text)
    ∧ rec !! "security_deposit" = Some (deposit_of text).
Proof.
  intros Ha.
  destruct (extract_closed_form parse text) as (a & s & Ha' & E).
  rewrite Ha in Ha'. injection Ha' as <- <-.
  eexists. split; [exact E|].
  split; [apply fact_record_dom | apply fact_record_lookup].
Qed.

End ClosedForm.

(** Runs the extraction on a concrete text whose address and suite are
    given: names the record returned and its eleven entries. *)
Ltac run_extraction parse text address suite rec :=
  destruct (extract_fields parse text address suite)
    as (rec & ? & ? & ? & ? & ? & ? & ? & ? & ? & ? & ? & ? & ?);
  [vm_compute; reflexivity|].

(** ** Auxiliary facts *)

Section Claims.

Implicit Types parse : string → res Date.datetime.

Lemma get_lookup (d : gmap string (option string)) k v :
  d !! k = Some v → get d k = v.
Proof. unfold get. by intros ->. Qed.

Lemma get_format facts k :
  k ∈ LEASE_KEYS →
  get (_format_facts_output facts) k = blank_to_none (get facts k).
Proof.
  intros Hk. unfold get at 1. by rewrite format_lookup, decide_True by done.
Qed.

Lemma get_merge primary secondary k :
  k ∈ LEASE_KEYS →
  get (_merge_facts primary secondary) k
  = PyStr.or_ (get primary k) (get secondary k).
Proof.
  intros Hk. unfold get at 1. by rewrite merge_lookup, decide_True by done.
Qed.

Lemma key_address : "property_address" ∈ LEASE_KEYS.
Proof. apply list_elem_of_In. simpl. tauto. Qed.
Lemma key_suite : "suite" ∈ LEASE_KEYS.
Proof. apply list_elem_of_In. simpl. tauto. Qed.
Lemma key_combined : "property_address_and_suite" ∈ LEASE_KEYS.
Proof. apply list_elem_of_In. simpl. tauto. Qed.
Lemma key_tenant : "tenant_name" ∈ LEASE_KEYS.
Proof. apply list_elem_of_In. simpl. tauto. Qed.

Lemma combined_addr_derived a s :
  combined_addr a s = derived_address_and_suite a s.
Proof. by destruct a as [[|? ?]|], s as [[|? ?]|]. Qed.

Lemma derived_blank a s :
  blank_to_none (derived_address_and_suite a s)
  = derived_address_and_suite (blank_to_none a) (blank_to_none s).
Proof. by destruct a as [[|? ?]|], s as [[|? ?]|]. Qed.

Lemma final_lookup_alone rec k :
  k ∈ LEASE_KEYS →
  get (_format_facts_output (_merge_facts rec ∅)) k
  = blank_to_none (get rec k).
Proof.
  intros Hk. rewrite get_format, get_merge by done.
  unfold get at 2. rewrite lookup_empty. unfold PyStr.or_.
  by destruct (get rec k) as [[|? ?]|].
Qed.

End Claims.

Lemma keys_nodup : NoDup LEASE_KEYS.
Proof. apply (bool_decide_unpack _). vm_compute. reflexivity. Qed.

Lemma keys_size : size (list_to_set LEASE_KEYS : gset string) = 11%nat.
Proof. by rewrite size_list_to_set by apply keys_nodup. Qed.

Lemma format_dom facts :
  dom (_format_facts_output facts) = list_to_set LEASE_KEYS.
Proof.
  apply dom_of_lookup. intros k. rewrite format_lookup.
  case_decide; split; done.
Qed.

Lemma merge_dom primary secondary :
  dom (_merge_facts primary secondary) = list_to_set LEASE_KEYS.
Proof.
  apply dom_of_lookup. intros k. rewrite merge_lookup.
  case_decide; split; done.
Qed.

Lemma date_of_capture parse pattern text raw dt :
  capture pattern text = Some raw → raw ≠ EmptyString →
  parse raw = Ok dt →
  date_of parse pattern text = Some (Date.strftime_d_m_Y dt).
Proof.
  intros Hc Hne Hp. unfold date_of. rewrite Hc. simpl.
  destruct raw; [done|]. simpl. unfold _normalize_date. by rewrite Hp.
Qed.







(** * The claims of the specification *)

(** ** C1: the derived field *)

(** C1, as stated, fails.  The documented function does not describe the
    records of the program: (1) merging two records that each satisfy the
    law, the first of them returned by the extraction, gives a record that
    breaks it, because the merger takes the derived field key by key;
    (2) for a text with a suite and no address the extraction writes
    [Suite 4B], not the part that is present; (3) an address that is the
    empty string is present in the record, and the derived field is
    missing. *)
Lemma derived_field_law_counterexample :
  (∃ primary,
      _extract_lease_facts_from_text no_dates "Address: 123 Main Street"
      = Ok primary
      ∧ derived_field_law primary ∧ derived_field_law suite_only
      ∧ ¬ derived_field_law (_merge_facts primary suite_only))
  ∧ (∃ rec,
        _extract_lease_facts_from_text no_dates "Suite 4B" = Ok rec
        ∧ ¬ derived_field_law rec)
  ∧ (∃ rec,
        _extract_lease_facts_from_text no_dates
          ("Address: " +:+ String TAB EmptyString) = Ok rec
        ∧ rec !! "property_address" = Some (Some EmptyString)
        ∧ ¬ derived_field_law rec).
Proof.
  split_and!.
  - run_extraction no_dates "Address: 123 Main Street"
      (Some "123 Main Street") (@None string) primary.
    exists primary. split; [done|]. unfold derived_field_law.
    rewrite !get_merge
      by (apply key_address || apply key_suite || apply key_combined).
    rewrite (get_lookup primary "property_address" (Some "123 Main Street"))
      by done.
    rewrite (get_lookup primary "suite" None) by done.
    rewrite (get_lookup primary "property_address_and_suite"
               (Some "123 Main Street")) by done.
    split_and!; [by vm_compute | by vm_compute | by vm_compute].
  - run_extraction no_dates "Suite 4B" (@None string) (Some "4B") rec.
    exists rec. split; [done|]. unfold derived_field_law.
    rewrite (get_lookup rec "property_address" None) by done.
    rewrite (get_lookup rec "suite" (Some "4B")) by done.
    rewrite (get_lookup rec "property_address_and_suite" (Some "Suite 4B"))
      by done.
    by vm_compute.
  - run_extraction no_dates ("Address: " +:+ String TAB EmptyString)
      (Some EmptyString) (@None string) rec.
    exists rec. split; [done|]. split; [done|]. unfold derived_field_law.
    rewrite (get_lookup rec "property_address" (Some EmptyString)) by done.
    rewrite (get_lookup rec "suite" None) by done.
    rewrite (get_lookup rec "property_address_and_suite" None) by done.
    by vm_compute.
Qed.

(** C1, amended.  For every text the extraction returns a record whose
    [property_address_and_suite] is the function of its own
    [property_address] and [suite] that [derived_address_and_suite]
    describes: [{address} Suite {suite}] when both are non-empty, the
    address when only the address is non-empty, [Suite {suite}] when only
    the suite is non-empty, missing otherwise.  The same holds of the final
    record of a request served without the fallback model (formatter after
    merger, with an empty secondary record).  The merger itself does not
    recompute the field: it takes the primary value when that is
    non-empty, else the secondary one. *)
Theorem derived_field_of_extraction
    (parse : string → res Date.datetime) (text : string) :
  (∃ rec final,
      _extract_lease_facts_from_text parse text = Ok rec
      ∧ derived_field_ok rec
      ∧ extract_lease_facts_core parse text ∅ = Ok final
      ∧ derived_field_ok final)
  ∧ (∀ primary secondary,
        get (_merge_facts primary secondary) "property_address_and_suite"
        = PyStr.or_ (get primary "property_address_and_suite")
            (get secondary "property_address_and_suite")).
Proof.
  split; [|intros primary secondary; apply get_merge, key_combined].
  destruct (extract_address_and_suite_ok text) as (a & s & Ha).
  destruct (extract_fields parse text a s Ha)
    as (rec & E & _ & _ & _ & Haddr & Hsuite & Hcomb & _).
  exists rec, (_format_facts_output (_merge_facts rec ∅)).
  assert (derived_field_ok rec) as Hrec.
  { unfold derived_field_ok.
    rewrite (get_lookup _ _ _ Haddr), (get_lookup _ _ _ Hsuite),
      (get_lookup _ _ _ Hcomb).
    apply combined_addr_derived. }
  split_and!; [exact E | exact Hrec | |].
  - unfold extract_lease_facts_core. rewrite E. reflexivity.
  - unfold derived_field_ok.
    rewrite (final_lookup_alone rec _ key_address),
      (final_lookup_alone rec _ key_suite),
      (final_lookup_alone rec _ key_combined).
    rewrite Hrec. apply derived_blank.
Qed.

(** ** C2: the priority of the merger *)

(** C2, as stated, fails: the extraction returns an empty string for the
    tenant of a text whose [Tenant:] label is followed by blanks only; that
    value is present (it is not the missing sentinel), yet the merged
    record holds the value of the secondary record. *)
Lemma merge_priority_counterexample :
  ∃ primary,
    _extract_lease_facts_from_text no_dates
      ("Tenant: " +:+ String TAB EmptyString) = Ok primary
    ∧ primary !! "tenant_name" = Some (Some EmptyString)
    ∧ _merge_facts primary acme_only !! "tenant_name"
      = Some (Some "Acme Corp")
    ∧ _merge_facts primary acme_only !! "tenant_name"
      ≠ Some (documented_merge_value (get primary "tenant_name")
                (get acme_only "tenant_name")).
Proof.
  run_extraction no_dates ("Tenant: " +:+ String TAB EmptyString)
    (@None string) (@None string) primary.
  assert (primary !! "tenant_name" = Some (Some EmptyString)) as Ht.
  { match goal with H : primary !! "tenant_name" = _ |- _ => rewrite H end.
    by vm_compute. }
  exists primary. split; [done|]. split; [exact Ht|].
  rewrite merge_lookup, decide_True by apply key_tenant.
  rewrite (get_lookup primary _ _ Ht).
  split; [by vm_compute|]. by vm_compute.
Qed.

(** C2, amended.  For every pair of records and each of the eleven keys,
    the merged value is the primary value when that is a non-empty string,
    whatever the secondary record holds; when the primary value is missing
    or is the empty string, the merged value is the secondary value, which
    is missing when the secondary record has none. *)
Theorem merge_facts_priority primary secondary key :
  key ∈ LEASE_KEYS →
  (∀ v, get primary key = Some v → v ≠ EmptyString →
        _merge_facts primary secondary !! key = Some (Some v))
  ∧ (get primary key = None ∨ get primary key = Some EmptyString →
     _merge_facts primary secondary !! key = Some (get secondary key)).
Proof.
  intros Hk. rewrite merge_lookup, decide_True by done. unfold PyStr.or_.
  split.
  - intros v -> Hv. by destruct v.
  - by intros [-> | ->].
Qed.

Lemma merge_facts_priority_witness :
  "tenant_name" ∈ LEASE_KEYS
  ∧ get acme_only "tenant_name" = Some "Acme Corp"
  ∧ "Acme Corp" ≠ EmptyString
  ∧ _merge_facts acme_only suite_only !! "tenant_name"
    = Some (Some "Acme Corp").
Proof.
  assert (Hk : "tenant_name" ∈ LEASE_KEYS)
    by (apply list_elem_of_In; simpl; tauto).
  assert (Hg : get acme_only "tenant_name" = Some "Acme Corp")
    by (vm_compute; reflexivity).
  assert (Hne : "Acme Corp" ≠ EmptyString) by discriminate.
  split_and!; [exact Hk | exact Hg | exact Hne |].
  exact (proj1 (merge_facts_priority acme_only suite_only "tenant_name" Hk)
           "Acme Corp" Hg Hne).
Defined.

(** ** C3: the security deposit amount *)

(** C3.  The amount captured after the [Security Deposit] label is returned
    as captured: the commas of [1,234.00] are still there, so the value is
    not made of digits and the decimal point only.  The square footage,
    captured the same way, does go through the numeric normalizer. *)
Theorem security_deposit_keeps_separators
    (parse : string → res Date.datetime) :
  (∃ rec,
      _extract_lease_facts_from_text parse "Security Deposit: $1,234.00"
      = Ok rec
      ∧ rec !! "security_deposit" = Some (Some "1,234.00")
      ∧ numeric_only "1,234.00" = false)
  ∧ (∃ rec,
        _extract_lease_facts_from_text parse "Total Square Feet: 12,345"
        = Ok rec
        ∧ rec !! "total_square_feet" = Some (Some "12345")
        ∧ numeric_only "12345" = true).
Proof.
  split.
  - run_extraction parse "Security Deposit: $1,234.00"
      (@None string) (@None string) rec.
    exists rec. split; [done|]. split; [|by vm_compute].
    match goal with H : rec !! "security_deposit" = _ |- _ => rewrite H end.
    by vm_compute.
  - run_extraction parse "Total Square Feet: 12,345"
      (@None string) (@None string) rec.
    exists rec. split; [done|]. split; [|by vm_compute].
    match goal with H : rec !! "total_square_feet" = _ |- _ => rewrite H end.
    by vm_compute.
Qed.

(** ** C4: the output formatter *)

(** C4.  For every input mapping the formatter returns a record whose keys
    are exactly the eleven canonical keys; a key that is absent from the
    input, or bound to the missing sentinel or to the empty string, is
    bound to the missing sentinel; any other canonical key keeps its value,
    a non-empty string; so every value is missing or non-empty; and no key
    outside the eleven is in the output. *)
Theorem format_facts_output_canonical (facts : gmap string (option string)) :
  dom (_format_facts_output facts) = list_to_set LEASE_KEYS
  ∧ size (dom (_format_facts_output facts)) = 11%nat
  ∧ (∀ k, k ∈ LEASE_KEYS →
          facts !! k = None ∨ facts !! k = Some None
          ∨ facts !! k = Some (Some EmptyString) →
          _format_facts_output facts !! k = Some None)
  ∧ (∀ k v, k ∈ LEASE_KEYS → facts !! k = Some (Some v) → v ≠ EmptyString →
            _format_facts_output facts !! k = Some (Some v))
  ∧ (∀ k, k ∈ LEASE_KEYS →
          _format_facts_output facts !! k = Some None
          ∨ ∃ v, v ≠ EmptyString
                 ∧ _format_facts_output facts !! k = Some (Some v))
  ∧ (∀ k, k ∉ LEASE_KEYS → _format_facts_output facts !! k = None).
Proof.
  split_and!.
  - apply format_dom.
  - rewrite format_dom. apply keys_size.
  - intros k Hk H. rewrite format_lookup, decide_True by done. unfold get.
    by destruct H as [-> | [-> | ->]].
  - intros k v Hk H Hv. rewrite format_lookup, decide_True by done.
    unfold get. rewrite H. by destruct v.
  - intros k Hk. rewrite format_lookup, decide_True by done.
    destruct (get facts k) as [[|c v]|]; simpl; [by left | | by left].
    right. by exists (String c v).
  - intros k Hk. by rewrite format_lookup, decide_False by done.
Qed.

Lemma format_facts_output_canonical_witness :
  ("suite" ∈ LEASE_KEYS ∧ sample_facts !! "suite" = Some (Some "4B")
   ∧ "4B" ≠ EmptyString
   ∧ _format_facts_output sample_facts !! "suite" = Some (Some "4B"))
  ∧ ("tenant_name" ∈ LEASE_KEYS
     ∧ sample_facts !! "tenant_name" = Some (Some EmptyString)
     ∧ _format_facts_output sample_facts !! "tenant_name" = Some None)
  ∧ (("page_count" ∉ LEASE_KEYS)
     ∧ _format_facts_output sample_facts !! "page_count" = None).
Proof.
  pose proof (format_facts_output_canonical sample_facts)
    as (_ & _ & Hblank & Hkeep & _ & Hdrop).
  assert (Hs : "suite" ∈ LEASE_KEYS) by (apply list_elem_of_In; simpl; tauto).
  assert (Ht : "tenant_name" ∈ LEASE_KEYS)
    by (apply list_elem_of_In; simpl; tauto).
  assert (Hp : "page_count" ∉ LEASE_KEYS).
  { intros H. apply list_elem_of_In in H. simpl in H.
    repeat (destruct H as [H|H]; [discriminate H|]). exact H. }
  assert (Hs' : sample_facts !! "suite" = Some (Some "4B"))
    by (vm_compute; reflexivity).
  assert (Ht' : sample_facts !! "tenant_name" = Some (Some EmptyString))
    by (vm_compute; reflexivity).
  assert (Hne : "4B" ≠ EmptyString) by discriminate.
  split_and!.
  - exact Hs.
  - exact Hs'.
  - exact Hne.
  - exact (Hkeep "suite" "4B" Hs Hs' Hne).
  - exact Ht.
  - exact Ht'.
  - exact (Hblank "tenant_name" Ht (or_intror (or_intror Ht'))).
  - exact Hp.
  - exact (Hdrop "page_count" Hp).
Defined.

(** ** C5: idempotence of the formatter *)

(** C5.  Formatting the output of the formatter gives the same record. *)
Theorem format_facts_output_idempotent (facts : gmap string (option string)) :
  _format_facts_output (_format_facts_output facts)
  = _format_facts_output facts.
Proof.
  apply map_eq. intros k. rewrite !format_lookup.
  case_decide as Hk; [|done].
  unfold get at 1. rewrite format_lookup, decide_True by done.
  simpl. by rewrite blank_to_none_idemp.
Qed.

(** ** C6: the date normalizer *)

(** C6.  Whatever the date parser does, [_normalize_date] returns the
    missing sentinel or a date as [strftime] prints it, and an exception of
    the parser becomes the missing sentinel.  What is printed is in the
    canonical form [DD-MM-YYYY] exactly when the parsed year has four
    digits.  The parser reading [March 1, 2023] as the first of March 2023,
    the commencement date extracted from a text with
    [Commencement Date: March 1, 2023] is [01-03-2023].  The parser reading
    [March 1, 200] as the first of March of the year 200, [_normalize_date]
    returns [01-03-200], which is not in the canonical form, and the
    extraction returns it as the commencement date. *)
Theorem normalize_date_unpadded_year (parse : string → res Date.datetime) :
  (∀ value,
      _normalize_date parse value = None
      ∨ ∃ s, _normalize_date parse value = Some s ∧ printed_date s = true)
  ∧ (∀ value dt,
        parse value = Ok dt →
        ∃ s, _normalize_date parse value = Some s
             ∧ (canonical_date s = true ↔ 1000 ≤ Date.year dt))
  ∧ (∀ value e, parse value = Raise e → _normalize_date parse value = None)
  ∧ (parse "March 1, 2023" = Ok march_1_2023 →
     (∃ rec,
         _extract_lease_facts_from_text parse
           "Commencement Date: March 1, 2023" = Ok rec
         ∧ rec !! "lease_commencement_date" = Some (Some "01-03-2023"))
     ∧ (∃ rec,
           _extract_lease_facts_from_text parse sample_lease = Ok rec
           ∧ rec !! "lease_commencement_date" = Some (Some "01-03-2023")))
  ∧ (parse "March 1, 200" = Ok march_1_200 →
     _normalize_date parse "March 1, 200" = Some "01-03-200"
     ∧ canonical_date "01-03-200" = false
     ∧ ∃ rec,
         _extract_lease_facts_from_text parse
           "Commencement Date: March 1, 200" = Ok rec
         ∧ rec !! "lease_commencement_date" = Some (Some "01-03-200")).
Proof.
  split_and!.
  - intros value. unfold _normalize_date.
    destruct (parse value) as [dt|e]; [right | by left].
    eexists. split; [done|]. apply strftime_printed.
  - intros value dt H. unfold _normalize_date. rewrite H.
    eexists. split; [done|]. apply strftime_canonical.
  - intros value e H. unfold _normalize_date. by rewrite H.
  - intros Hparse. split.
    + run_extraction parse "Commencement Date: March 1, 2023"
        (@None string) (@None string) rec.
      exists rec. split; [done|].
      match goal with
      | H : rec !! "lease_commencement_date" = _ |- _ => rewrite H
      end.
      f_equal.
      rewrite (date_of_capture parse _ _ "March 1, 2023" march_1_2023);
        [by vm_compute | by vm_compute | done | done].
    + run_extraction parse sample_lease
        (Some "123 Main Street") (Some "4B") rec.
      exists rec. split; [done|].
      match goal with
      | H : rec !! "lease_commencement_date" = _ |- _ => rewrite H
      end.
      f_equal.
      rewrite (date_of_capture parse _ _ "March 1, 2023" march_1_2023);
        [by vm_compute | by vm_compute | done | done].
  - intros Hparse. split_and!.
    + unfold _normalize_date. rewrite Hparse. by vm_compute.
    + by vm_compute.
    + run_extraction parse "Commencement Date: March 1, 200"
        (@None string) (@None string) rec.
      exists rec. split; [done|].
      match goal with
      | H : rec !! "lease_commencement_date" = _ |- _ => rewrite H
      end.
      f_equal.
      rewrite (date_of_capture parse _ _ "March 1, 200" march_1_200);
        [by vm_compute | by vm_compute | done | done].
Qed.

Lemma normalize_date_unpadded_year_witness :
  (parse_march "March 1, 2023" = Ok march_1_2023
   ∧ ∃ rec,
       _extract_lease_facts_from_text parse_march
         "Commencement Date: March 1, 2023" = Ok rec
       ∧ rec !! "lease_commencement_date" = Some (Some "01-03-2023"))
  ∧ (parse_year_200 "March 1, 200" = Ok march_1_200
     ∧ _normalize_date parse_year_200 "March 1, 200" = Some "01-03-200"
     ∧ canonical_date "01-03-200" = false).
Proof.
  assert (H : parse_march "March 1, 2023" = Ok march_1_2023)
    by reflexivity.
  assert (H' : parse_year_200 "March 1, 200" = Ok march_1_200)
    by reflexivity.
  split.
  - split; [exact H|].
    exact (proj1 (proj1 (proj2 (proj2 (proj2
             (normalize_date_unpadded_year parse_march)))) H)).
  - split; [exact H'|].
    destruct (proj2 (proj2 (proj2 (proj2
                (normalize_date_unpadded_year parse_year_200)))) H')
      as (Hn & Hc & _).
    split; [exact Hn | exact Hc].
Defined.

(** ** C7: the security deposit stated as none *)



(** ** C8: the address line *)



(** ** C9: the extraction never fails *)



(** ** C10: the keys of the merged record *)

(** C10.  For every pair of input mappings the merged record has exactly
    the eleven canonical keys; a key outside the eleven that an input
    carries is not in the merged record. *)
Theorem merge_facts_keys (primary secondary : gmap string (option string)) :
  dom (_merge_facts primary secondary) = list_to_set LEASE_KEYS
  ∧ size (dom (_merge_facts primary secondary)) = 11%nat
  ∧ (∀ k, k ∉ LEASE_KEYS → _merge_facts primary secondary !! k = None).
Proof.
  split_and!.
  - apply merge_dom.
  - rewrite merge_dom. apply keys_size.
  - intros k Hk. by rewrite merge_lookup, decide_False by done.
Qed.

Lemma merge_facts_keys_witness :
  ("page_count" ∉ LEASE_KEYS)
  ∧ sample_facts !! "page_count" = Some (Some "12")
  ∧ _merge_facts sample_facts ∅ !! "page_count" = None
  ∧ _merge_facts ∅ sample_facts !! "page_count" = None.
Proof.
  assert (Hp : "page_count" ∉ LEASE_KEYS).
  { intros H. apply list_elem_of_In in H. simpl in H.
    repeat (destruct H as [H|H]; [discriminate H|]). exact H. }
  split_and!; [exact Hp | vm_compute; reflexivity | |].
  - exact (proj2 (proj2 (merge_facts_keys sample_facts ∅)) "page_count" Hp).
  - exact (proj2 (proj2 (merge_facts_keys ∅ sample_facts)) "page_count" Hp).
Defined.

(** * Further properties of the code *)

Import Byte.

(** ** What a match reads *)

Section Consumption.

Variable ic : bool.

Lemma all_chars_app p a b :
  all_chars p (a +:+ b) = all_chars p a && all_chars p b.
Proof.
  induction a as [|c a IH]; simpl; [done|]. rewrite IH. by destruct (p c).
Qed.

Lemma all_chars_impl (p q : ascii → bool) s :
  (∀ c, p c = true → q c = true) → all_chars p s = true → all_chars q s = true.
Proof.
  intros Hpq. induction s as [|c s IH]; simpl; [done|].
  intros [H1 H2]%andb_true_iff. by rewrite (Hpq _ H1), IH.
Qed.

Lemma app_assoc_str (a b c : string) : (a +:+ b) +:+ c = a +:+ (b +:+ c).
Proof.
  induction a as [|x a IH]; [done|].
  change (String x ((a +:+ b) +:+ c) = String x (a +:+ b +:+ c)). by f_equal.
Qed.

Lemma lit_consumes l :
  ∀ cur cur', lit ic l cur = Some cur' →
    ∃ a, snd cur = a +:+ snd cur' ∧ all_chars (lit_admits ic l) a = true.
Proof.
  induction l as [|d l IH]; intros cur cur' H; simpl in H.
  - inversion H; subst. by exists EmptyString.
  - destruct (snd cur) as [|c s'] eqn:Es; [done|].
    destruct (PyChar.eqb_flag ic d c) eqn:Ed; [|done].
    apply IH in H as (a & Ha & Hall). simpl in Ha.
    exists (String c a). split; [by rewrite Ha|]. simpl.
    rewrite Ed. simpl.
    eapply all_chars_impl; [|exact Hall]. intros c0 ->. apply orb_true_r.
Qed.

Lemma rep_consumes {R : Type} greedy cs (k : cursor → option R) x :
  ∀ s lo hi prev,
    rep ic greedy cs lo hi prev s k = Some x →
    ∃ a cur',
      s = a +:+ snd cur'
      ∧ all_chars (in_cset ic cs) a = true
      ∧ (lo ≤ String.length a)%nat
      ∧ (∀ h, hi = Some h → (String.length a ≤ h)%nat)
      ∧ k cur' = Some x.
Proof.
  assert (Hstop : ∀ s lo (hi : option nat) prev,
            rep_stop k lo prev s = Some x →
            ∃ a cur',
              s = a +:+ snd cur'
              ∧ all_chars (in_cset ic cs) a = true
              ∧ (lo ≤ String.length a)%nat
              ∧ (∀ h, hi = Some h → (String.length a ≤ h)%nat)
              ∧ k cur' = Some x).
  { intros s lo hi prev H. destruct lo; [|done]. simpl in H.
    exists EmptyString, (prev, s). split_and!; simpl; try done.
    intros h _. lia. }
  induction s as [|c s IH]; intros lo hi prev H; rewrite rep_unfold in H.
  - assert (rep_more ic greedy cs k lo hi EmptyString = None) as Hm by done.
    rewrite Hm in H.
    apply (Hstop _ _ hi prev). by destruct greedy, (rep_stop k lo prev EmptyString).
  - assert (rep_more ic greedy cs k lo hi (String c s) = Some x →
            ∃ a cur',
              String c s = a +:+ snd cur'
              ∧ all_chars (in_cset ic cs) a = true
              ∧ (lo ≤ String.length a)%nat
              ∧ (∀ h, hi = Some h → (String.length a ≤ h)%nat)
              ∧ k cur' = Some x) as Hmore.
    { simpl. destruct (may_repeat hi && in_cset ic cs c) eqn:E; [|done].
      apply andb_true_iff in E as [Eh Ec].
      intros (a & cur' & -> & Hall & Hlo & Hhi & Hk)%IH.
      exists (String c a), cur'. split_and!; simpl; try done.
      - by rewrite Ec.
      - lia.
      - intros h ->. destruct h; [done|]. simpl in Hhi.
        specialize (Hhi h eq_refl). lia. }
    destruct greedy.
    + destruct (rep_more ic true cs k lo hi (String c s)) eqn:E.
      * inversion H; subst. by apply Hmore.
      * by apply (Hstop _ _ hi prev).
    + destruct (rep_stop k lo prev (String c s)) eqn:E.
      * inversion H; subst. by apply (Hstop _ _ hi prev).
      * by apply Hmore.
Qed.

(** A successful match has read, up to the position where its
    continuation succeeds, characters that the pattern admits. *)
Lemma m_consumes r : reads_only ic (λ a, all_chars (admits ic r) a = true) r.
Proof.
  unfold reads_only.
  induction r as [|cs|l|r1 IH1 r2 IH2|r1 IH1 r2 IH2|r1 IH1
                 |greedy lo hi cs|r1 IH1| |];
    intros R cur g k x H; simpl in H.
  - by exists EmptyString, cur, g.
  - destruct (snd cur) as [|c s'] eqn:Es; [done|].
    destruct (in_cset ic cs c) eqn:Ec; [|done].
    exists (String c EmptyString), (Some c, s'), g.
    split_and!; simpl; [done | by rewrite Ec | done].
  - destruct (lit ic l cur) as [cur'|] eqn:El; [|done].
    apply lit_consumes in El as (a & Ha & Hall). by exists a, cur', g.
  - apply IH1 in H as (a1 & cur1 & g1 & Ha1 & Hall1 & H).
    apply IH2 in H as (a2 & cur2 & g2 & Ha2 & Hall2 & H).
    exists (a1 +:+ a2), cur2, g2. split_and!; [|simpl|done].
    + by rewrite Ha1, Ha2, app_assoc_str.
    + rewrite all_chars_app. apply andb_true_iff. split.
      * eapply all_chars_impl; [|exact Hall1]. by intros c ->.
      * eapply all_chars_impl; [|exact Hall2]. intros c ->. apply orb_true_r.
  - destruct (m ic r1 cur g k) as [y|] eqn:E.
    + inversion H; subst.
      apply IH1 in E as (a & cur' & g' & Ha & Hall & E).
      exists a, cur', g'. split_and!; [done| |done]. simpl.
      eapply all_chars_impl; [|exact Hall]. by intros c ->.
    + apply IH2 in H as (a & cur' & g' & Ha & Hall & E').
      exists a, cur', g'. split_and!; [done| |done]. simpl.
      eapply all_chars_impl; [|exact Hall]. intros c ->. apply orb_true_r.
  - destruct (m ic r1 cur g k) as [y|] eqn:E.
    + inversion H; subst. by apply IH1 in E.
    + by exists EmptyString, cur, g.
  - apply rep_consumes in H as (a & cur' & Ha & Hall & _ & _ & H).
    by exists a, cur', g.
  - apply IH1 in H as (a & cur' & g' & Ha & Hall & H). eauto 10.
  - destruct (xorb _ _); [|done]. by exists EmptyString, cur, g.
  - destruct (fst cur); [done|]. by exists EmptyString, cur, g.
Qed.

(** A quantifier reads between [lo] and [hi] characters of its set. *)
Lemma rep_reads greedy lo hi cs :
  reads_only ic
    (λ a, all_chars (in_cset ic cs) a = true
          ∧ (lo ≤ String.length a)%nat
          ∧ ∀ h, hi = Some h → (String.length a ≤ h)%nat)
    (Rep greedy lo hi cs).
Proof.
  intros R cur g k x H. simpl in H.
  apply rep_consumes in H as (a & cur' & Ha & Hall & Hlo & Hhi & H).
  by exists a, cur', g.
Qed.

Lemma reads_only_impl (Φ Ψ : string → Prop) r :
  (∀ a, Φ a → Ψ a) → reads_only ic Φ r → reads_only ic Ψ r.
Proof.
  intros HΦ Hr R cur g k x H.
  apply Hr in H as (a & cur' & g' & Ha & Hp & H). eauto 10.
Qed.

(** Group 1 after a successful match holds what a group of the pattern
    has read, or what it held before. *)
Lemma m_group_is (Φ : string → Prop) {R : Type} r :
  groups_read ic Φ r →
  ∀ cur g (k : cursor → option string → option R) x,
    group_is Φ g →
    m ic r cur g k = Some x →
    ∃ cur' g', k cur' g' = Some x ∧ group_is Φ g'.
Proof.
  induction r as [|cs|l|r1 IH1 r2 IH2|r1 IH1 r2 IH2|r1 IH1
                 |greedy lo hi cs|r1 IH1| |];
    intros Hr cur g k x Hg H; simpl in H, Hr.
  - eauto.
  - destruct (snd cur) as [|c s']; [done|].
    destruct (in_cset ic cs c); [eauto | done].
  - destruct (lit ic l cur); [eauto | done].
  - destruct Hr as [Hr1 Hr2].
    apply (IH1 Hr1) in H as (cur1 & g1 & H & Hg1); [|done].
    by apply (IH2 Hr2) in H.
  - destruct Hr as [Hr1 Hr2].
    destruct (m ic r1 cur g k) as [y|] eqn:E.
    + inversion H; subst. by apply (IH1 Hr1) in E.
    + by apply (IH2 Hr2) in H.
  - destruct (m ic r1 cur g k) as [y|] eqn:E.
    + inversion H; subst. by apply (IH1 Hr) in E.
    + eauto.
  - apply rep_reaches in H as [cur' H]. eauto.
  - apply Hr in H as (a & cur' & g' & Ha & HΦ & H).
    exists cur', (Some (consumed cur cur')). split; [done|].
    intros a' [= <-]. destruct cur as [p s], cur' as [q s']. simpl in Ha.
    subst s. by rewrite consumed_prefix.
  - destruct (xorb _ _); [eauto | done].
  - destruct (fst cur); [done | eauto].
Qed.

Lemma search_from_group_is (Φ : string → Prop) r :
  groups_read ic Φ r →
  ∀ s start prev mo,
    search_from ic r start prev s = Some mo → group_is Φ (m_group1 mo).
Proof.
  intros Hr.
  assert (∀ cur g cur', match_at ic r cur = Some (g, cur') → group_is Φ g)
    as Hat.
  { intros cur g cur' H. unfold match_at in H.
    apply (m_group_is Φ r Hr) in H as (c1 & g1 & [= <- <-] & Hg); [done|].
    by intros a. }
  induction s as [|c s IH]; intros start prev mo H; simpl in H.
  - destruct (match_at ic r (prev, EmptyString)) as [[g cur']|] eqn:E;
      [|done].
    inversion H; subst; simpl. eapply Hat, E.
  - destruct (match_at ic r (prev, String c s)) as [[g cur']|] eqn:E.
    + inversion H; subst; simpl. eapply Hat, E.
    + eapply IH, H.
Qed.

End Consumption.

Section Strip.

Variable p : ascii → bool.

Lemma all_chars_lstrip φ s :
  all_chars φ s = true → all_chars φ (PyStr.lstrip_by p s) = true.
Proof.
  induction s as [|c s IH]; simpl; [done|].
  intros [H1 H2]%andb_true_iff. destruct (p c); [auto|].
  simpl. by rewrite H1, H2.
Qed.

Lemma all_chars_rstrip φ s :
  all_chars φ s = true → all_chars φ (PyStr.rstrip_by p s) = true.
Proof.
  induction s as [|c s IH]; simpl; [done|].
  intros [H1 H2]%andb_true_iff. specialize (IH H2).
  destruct (PyStr.rstrip_by p s) as [|d r].
  - destruct (p c); simpl; [done|]. by rewrite H1.
  - simpl in *. by rewrite H1, IH.
Qed.

Lemma all_chars_strip φ s :
  all_chars φ s = true → all_chars φ (PyStr.strip_by p s) = true.
Proof. intros H. by apply all_chars_rstrip, all_chars_lstrip. Qed.

Lemma lstrip_head_free s : head_free p (PyStr.lstrip_by p s) = true.
Proof.
  induction s as [|c s IH]; simpl; [done|].
  destruct (p c) eqn:E; [done|]. simpl. by rewrite E.
Qed.

Lemma rstrip_last_free s : last_free p (PyStr.rstrip_by p s) = true.
Proof.
  induction s as [|c s IH]; simpl; [done|].
  destruct (PyStr.rstrip_by p s) as [|d r].
  - destruct (p c) eqn:E; simpl; [done|]. by rewrite E.
  - done.
Qed.

Lemma rstrip_head_free s :
  head_free p s = true → head_free p (PyStr.rstrip_by p s) = true.
Proof.
  destruct s as [|c s]; simpl; [done|]. intros H.
  destruct (PyStr.rstrip_by p s); [|done].
  destruct (p c) eqn:E; [done|]. simpl. by rewrite E.
Qed.

Lemma strip_free s :
  head_free p (PyStr.strip_by p s) = true
  ∧ last_free p (PyStr.strip_by p s) = true.
Proof.
  split; [apply rstrip_head_free, lstrip_head_free | apply rstrip_last_free].
Qed.

(** Stripping changes nothing when no character is to be stripped. *)
Lemma strip_by_id s :
  all_chars (λ c, negb (p c)) s = true → PyStr.strip_by p s = s.
Proof.
  intros H. unfold PyStr.strip_by.
  assert (PyStr.lstrip_by p s = s) as ->.
  { destruct s as [|c s]; simpl in *; [done|].
    apply andb_true_iff in H as [H _]. by destruct (p c). }
  induction s as [|c s IH]; simpl in *; [done|].
  apply andb_true_iff in H as [H1 H2]. rewrite (IH H2).
  destruct s; [|done]. by destruct (p c).
Qed.

Lemma strip_by_length s :
  all_chars (λ c, negb (p c)) s = true →
  String.length (PyStr.strip_by p s) = String.length s.
Proof. intros H. by rewrite strip_by_id. Qed.

End Strip.

Section Fields.

Lemma capture_group_is (Φ : string → Prop) pattern text v :
  groups_read IGNORECASE Φ pattern →
  capture pattern text = Some v →
  ∃ a, Φ a ∧ v = PyStr.strip a.
Proof.
  intros Hr. unfold capture.
  destruct (search pattern text IGNORECASE) as [mo|] eqn:E; [|done].
  apply (search_from_group_is IGNORECASE Φ pattern Hr) in E.
  destruct (m_group1 mo) as [a|]; [|done]. simpl. intros [= <-].
  exists a. split; [by apply E | done].
Qed.

Lemma word_or_dash_not_space c :
  is_word_or_dash c = true → negb (PyChar.isspace c) = true.
Proof. destruct c as [[] [] [] [] [] [] [] []]; by vm_compute. Qed.

Lemma digit_not_space c :
  PyChar.isdigit c = true → negb (PyChar.isspace c) = true.
Proof. destruct c as [[] [] [] [] [] [] [] []]; by vm_compute. Qed.

Lemma suite_pat_group :
  groups_read IGNORECASE
    (λ a, all_chars is_word_or_dash a = true ∧ (1 ≤ String.length a)%nat)
    suite_pat.
Proof.
  simpl. split_and!; try exact I.
  eapply reads_only_impl; [|apply rep_reads]. simpl. intros a (? & ? & _).
  done.
Qed.

Lemma suite_group_shape text mo g :
  search suite_pat text IGNORECASE = Some mo →
  group1_strip mo = Ok g → suite_shape g = true.
Proof.
  intros E Hg.
  apply (search_from_group_is IGNORECASE _ _ suite_pat_group) in E.
  unfold group1_strip in Hg. destruct (m_group1 mo) as [a|]; [|done].
  injection Hg as <-. destruct (E a eq_refl) as [Hall Hlen].
  unfold PyStr.strip. rewrite strip_by_id.
  - unfold suite_shape. rewrite Hall. destruct a; [simpl in Hlen; lia|done].
  - eapply all_chars_impl; [|exact Hall]. apply word_or_dash_not_space.
Qed.

Lemma any_group_single_line lo hi :
  reads_only IGNORECASE (λ a, all_chars not_LF a = true)
    (Rep true lo hi CAny).
Proof.
  eapply reads_only_impl; [|apply rep_reads]. simpl. by intros a (? & _).
Qed.

Lemma address_label_group :
  groups_read IGNORECASE (λ a, all_chars not_LF a = true) address_label_pat.
Proof. simpl. split_and!; try exact I. apply any_group_single_line. Qed.

Lemma sub_go_all_chars φ ic r :
  ∀ s prev skip,
    all_chars φ s = true → all_chars φ (sub_go ic r prev s skip) = true.
Proof.
  induction s as [|c s IH]; intros prev skip H; simpl; [done|].
  simpl in H. apply andb_true_iff in H as [H1 H2].
  destruct skip; [|by apply IH].
  destruct (match_at ic r (prev, String c s)) as [[g cur']|].
  - destruct (_ - _)%nat; simpl; rewrite ?H1; by apply IH.
  - simpl. rewrite H1. by apply IH.
Qed.

Lemma all_chars_snoc φ line c :
  all_chars φ (PyStr.snoc line c) = all_chars φ line && φ c.
Proof.
  induction line as [|d line IH]; simpl; [by rewrite andb_true_r|].
  rewrite IH. by destruct (φ d).
Qed.

Lemma splitlines_go_lines s :
  ∀ line after_cr,
    all_chars not_linebreak line = true →
    Forall (λ l, all_chars not_linebreak l = true)
      (PyStr.splitlines_go s line after_cr).
Proof.
  induction s as [|c s IH]; intros line after_cr H; simpl.
  - destruct (PyStr.is_empty line); [constructor | by repeat constructor].
  - destruct (Ascii.eqb c PyChar.LF && after_cr); [by apply IH|].
    destruct (PyChar.islinebreak c) eqn:E.
    + constructor; [done | by apply IH].
    + apply IH. rewrite all_chars_snoc, H. unfold not_linebreak. by rewrite E.
Qed.

Lemma not_linebreak_not_LF c : not_linebreak c = true → not_LF c = true.
Proof. destruct c as [[] [] [] [] [] [] [] []]; by vm_compute. Qed.

Lemma stripped_lines text :
  Forall (λ l, all_chars not_LF l = true)
    (PyStr.strip <$> PyStr.splitlines text).
Proof.
  apply Forall_fmap. eapply Forall_impl; [by apply splitlines_go_lines|].
  intros l H. simpl. apply all_chars_strip.
  eapply all_chars_impl; [|exact H]. apply not_linebreak_not_LF.
Qed.

Lemma first_suite_shape cand_lines v :
  first_suite cand_lines = Ok v → when_present suite_shape v = true.
Proof.
  induction cand_lines as [|cl rest IH]; simpl; [by intros [= <-]|].
  destruct (search suite_pat cl IGNORECASE) as [mo|] eqn:E; [|done].
  destruct (group1_strip mo) as [g|e] eqn:Eg; [|done]. simpl.
  intros [= <-]. simpl. by eapply suite_group_shape.
Qed.

Lemma label_capture_shape text a s :
  label_capture text = Ok (a, s) →
  when_present (all_chars not_LF) a = true
  ∧ when_present suite_shape s = true.
Proof.
  unfold label_capture.
  destruct (search address_label_pat text IGNORECASE) as [mo|] eqn:E;
    [|by intros [= <- <-]].
  apply (search_from_group_is IGNORECASE _ _ address_label_group) in E.
  destruct (group1_strip mo) as [line|e] eqn:Eg; cbn [mbind res_bind];
    [|done].
  assert (all_chars not_LF line = true) as Hline.
  { unfold group1_strip in Eg. destruct (m_group1 mo) as [g|]; [|done].
    injection Eg as <-. by apply all_chars_strip, E. }
  destruct (search suite_pat line IGNORECASE) as [mo'|] eqn:E';
    [|by intros [= <- <-]].
  destruct (group1_strip mo') as [g'|e'] eqn:Eg'; [|done].
  cbn [mbind res_bind]. intros [= <- <-]. split.
  - simpl. by apply all_chars_strip, sub_go_all_chars.
  - simpl. by eapply suite_group_shape.
Qed.

Lemma street_scan_shape lines :
  Forall (λ l, all_chars not_LF l = true) lines →
  ∀ a s a' s',
    when_present (all_chars not_LF) a = true →
    when_present suite_shape s = true →
    street_scan lines a s = Ok (a', s') →
    when_present (all_chars not_LF) a' = true
    ∧ when_present suite_shape s' = true.
Proof.
  induction 1 as [|l rest Hl Hrest IH]; intros a s a' s' Ha Hs.
  - simpl. by intros [= <- <-].
  - cbn [street_scan]; cbv zeta.
    destruct (search street_pat l IGNORECASE); [|by apply IH].
    destruct (first_suite _) as [found|e] eqn:Ef; [|done].
    cbn [mbind res_bind]. intros [= <- <-]. split.
    + simpl. by apply all_chars_strip.
    + apply first_suite_shape in Ef. by destruct found.
Qed.

Lemma global_suite_shape text s s' :
  when_present suite_shape s = true →
  global_suite text s = Ok s' → when_present suite_shape s' = true.
Proof.
  intros Hs. unfold global_suite.
  destruct (search suite_pat text IGNORECASE) as [mo|] eqn:E;
    [|by intros [= <-]].
  destruct (group1_strip mo) as [g|e] eqn:Eg; [|done].
  cbn [mbind res_bind]. intros [= <-]. simpl. by eapply suite_group_shape.
Qed.

Lemma extract_address_and_suite_shape text a s :
  _extract_address_and_suite text = Ok (a, s) →
  when_present (all_chars not_LF) a = true
  ∧ when_present suite_shape s = true.
Proof.
  unfold _extract_address_and_suite. cbv zeta.
  destruct (label_capture text) as [[a1 s1]|e] eqn:E1; [|done].
  apply label_capture_shape in E1 as [Ha1 Hs1]. cbn [mbind res_bind].
  destruct (if PyStr.truthy a1 then Ok (a1, s1)
            else street_scan (PyStr.strip <$> PyStr.splitlines text) a1 s1)
    as [[a2 s2]|e] eqn:E2; [|done].
  assert (when_present (all_chars not_LF) a2 = true
          ∧ when_present suite_shape s2 = true) as [Ha2 Hs2].
  { destruct (PyStr.truthy a1).
    - by injection E2 as <- <-.
    - by eapply (street_scan_shape _ (stripped_lines text)). }
  cbn [mbind res_bind].
  destruct (if PyStr.truthy s2 then Ok s2 else global_suite text s2)
    as [s3|e] eqn:E3; [|done].
  cbn [mbind res_bind]. intros [= <- <-]. split; [done|].
  destruct (PyStr.truthy s2).
  - by injection E3 as <-.
  - by eapply global_suite_shape.
Qed.

End Fields.

Section FieldShapes.

Implicit Types parse : string → res Date.datetime.

Lemma tenant_group :
  groups_read IGNORECASE (λ a, all_chars not_LF a = true) tenant_pat.
Proof. simpl. split_and!; try exact I. apply any_group_single_line. Qed.

Lemma landlord_group :
  groups_read IGNORECASE (λ a, all_chars not_LF a = true) landlord_pat.
Proof. simpl. split_and!; try exact I. apply any_group_single_line. Qed.

Lemma capture_trimmed_line pattern text :
  groups_read IGNORECASE (λ a, all_chars not_LF a = true) pattern →
  when_present trimmed_line (capture pattern text) = true.
Proof.
  intros Hr. destruct (capture pattern text) as [v|] eqn:E; [|done]. simpl.
  apply (capture_group_is _ _ _ _ Hr) in E as (a & Ha & ->).
  unfold trimmed_line, PyStr.strip.
  destruct (strip_free PyChar.isspace a) as [-> ->].
  by rewrite all_chars_strip.
Qed.

Lemma base_year_group :
  groups_read IGNORECASE
    (λ a, all_chars PyChar.isdigit a = true ∧ String.length a = 4%nat)
    base_year_pat.
Proof.
  simpl. split_and!; try exact I.
  eapply reads_only_impl; [|apply rep_reads]. simpl.
  intros a (Ha & Hlo & Hhi). split; [done|]. specialize (Hhi _ eq_refl). lia.
Qed.

Lemma capture_base_year text :
  when_present four_digits_shape (capture base_year_pat text) = true.
Proof.
  destruct (capture base_year_pat text) as [v|] eqn:E; [|done]. simpl.
  apply (capture_group_is _ _ _ _ base_year_group) in E as (a & [Ha Hl] & ->).
  unfold PyStr.strip. rewrite strip_by_id.
  - unfold four_digits_shape. by rewrite Hl, Ha.
  - eapply all_chars_impl; [|exact Ha]. apply digit_not_space.
Qed.

Lemma sub_numeric s :
  ∀ prev, numeric_only (sub_go NOFLAG non_numeric_pat prev s 0) = true.
Proof.
  induction s as [|c s IH]; intros prev; [done|].
  cbn [sub_go]. unfold match_at, non_numeric_pat. cbn [m snd].
  destruct (in_cset NOFLAG (CNot (CUnion CDigit (CChar DOT))) c) eqn:E.
  - cbn [snd].
    replace (String.length (String c s) - String.length s)%nat with 1%nat
      by (simpl; lia).
    apply IH.
  - simpl. rewrite IH, andb_true_r.
    simpl in E. apply negb_false_iff in E.
    unfold PyChar.eqb_flag, NOFLAG in E.
    by rewrite (Ascii.eqb_sym c DOT).
Qed.

Lemma square_feet_numeric text :
  when_present numeric_only (square_feet_of text) = true.
Proof.
  unfold square_feet_of.
  destruct (PyStr.truthy (capture square_feet_pat text)); [|done].
  destruct (capture square_feet_pat text) as [raw|]; [|done]. simpl.
  apply sub_numeric.
Qed.

Lemma date_of_printed parse pattern text :
  when_present printed_date (date_of parse pattern text) = true.
Proof.
  unfold date_of.
  destruct (PyStr.truthy (capture pattern text)); [|done].
  destruct (capture pattern text) as [raw|]; [|done]. simpl.
  unfold _normalize_date. destruct (parse raw) as [dt|e]; [|done].
  simpl. apply strftime_printed.
Qed.

Lemma deposit_group_chars c :
  admits IGNORECASE
    (seq [plus (CUnion CDigit (CChar COMMA));
          Opt (seq [Lit "."; times 2 2 CDigit])]) c = true →
  deposit_char c = true.
Proof. destruct c as [[] [] [] [] [] [] [] []]; by vm_compute. Qed.

Lemma deposit_amount_group :
  groups_read IGNORECASE (λ a, all_chars deposit_char a = true)
    deposit_amount_pat.
Proof.
  simpl. split_and!; try exact I.
  eapply reads_only_impl; [|apply m_consumes]. simpl. intros a Ha.
  eapply all_chars_impl; [|exact Ha]. apply deposit_group_chars.
Qed.

Lemma deposit_of_shape text :
  when_present deposit_shape (deposit_of text) = true.
Proof.
  unfold deposit_of.
  destruct (capture deposit_amount_pat text) as [v|] eqn:E.
  - apply (capture_group_is _ _ _ _ deposit_amount_group) in E
      as (a & Ha & ->).
    assert (all_chars deposit_char (PyStr.strip a) = true) as Hv
      by by apply all_chars_strip.
    destruct (PyStr.strip a) as [|c v]; simpl.
    + by destruct (search deposit_none_pat text IGNORECASE).
    + unfold deposit_shape. simpl in *. rewrite Hv. apply orb_true_r.
  - simpl. by destruct (search deposit_none_pat text IGNORECASE).
Qed.

End FieldShapes.

(** Settles a fact about one character by trying the 256 of them. *)
Ltac by_cases_on_char :=
  let c := fresh "c" in
  intros c; destruct c as [[] [] [] [] [] [] [] []]; by vm_compute.

Section Share.

Lemma reads_only_cat ic (Φ1 Φ2 : string → Prop) r1 r2 :
  reads_only ic Φ1 r1 → reads_only ic Φ2 r2 →
  reads_only ic (λ a, ∃ a1 a2, a = a1 +:+ a2 ∧ Φ1 a1 ∧ Φ2 a2) (Cat r1 r2).
Proof.
  intros H1 H2 R cur g k x H. simpl in H.
  apply H1 in H as (a1 & cur1 & g1 & Ha1 & HΦ1 & H).
  apply H2 in H as (a2 & cur2 & g2 & Ha2 & HΦ2 & H).
  exists (a1 +:+ a2), cur2, g2. split_and!; [|eauto|done].
  by rewrite Ha1, Ha2, app_assoc_str.
Qed.

Lemma reads_only_eps ic : reads_only ic (λ a, a = EmptyString) Eps.
Proof. intros R cur g k x H. by exists EmptyString, cur, g. Qed.

Lemma lit_length ic l :
  ∀ cur cur', lit ic l cur = Some cur' →
    ∃ a, snd cur = a +:+ snd cur'
         ∧ all_chars (lit_admits ic l) a = true
         ∧ String.length a = String.length l.
Proof.
  induction l as [|d l IH]; intros cur cur' H; simpl in H.
  - inversion H; subst. by exists EmptyString.
  - destruct (snd cur) as [|c s'] eqn:Es; [done|].
    destruct (PyChar.eqb_flag ic d c) eqn:Ed; [|done].
    apply IH in H as (a & Ha & Hall & Hlen). simpl in Ha.
    exists (String c a). split_and!; [by rewrite Ha | | simpl; lia].
    simpl. rewrite Ed. simpl.
    eapply all_chars_impl; [|exact Hall]. intros c0 ->. apply orb_true_r.
Qed.

Lemma reads_only_lit ic l :
  reads_only ic
    (λ a, all_chars (lit_admits ic l) a = true
          ∧ String.length a = String.length l) (Lit l).
Proof.
  intros R cur g k x H. simpl in H.
  destruct (lit ic l cur) as [cur'|] eqn:El; [|done].
  apply lit_length in El as (a & Ha & Hall & Hlen). by exists a, cur', g.
Qed.

Lemma percent_only a :
  all_chars (lit_admits IGNORECASE "%") a = true →
  String.length a = 1%nat → a = "%".
Proof.
  destruct a as [|c [|d a]]; try done. simpl. intros H _.
  rewrite andb_true_r, orb_false_r in H.
  destruct c as [[] [] [] [] [] [] [] []]; by vm_compute in H.
Qed.

Lemma app_nil_r_str (a : string) : a +:+ EmptyString = a.
Proof.
  induction a as [|c a IH]; [done|].
  change (String c (a +:+ EmptyString) = String c a). by f_equal.
Qed.

Lemma ends_with_char_app d a : ends_with_char d (a +:+ String d EmptyString) = true.
Proof.
  induction a as [|c a IH]; [by simpl; rewrite Ascii.eqb_refl|].
  change (String c a +:+ String d EmptyString) with (String c (a +:+ String d EmptyString)).
  cbn [ends_with_char]. by destruct (a +:+ String d EmptyString).
Qed.

Lemma ends_with_lstrip p d s :
  p d = false → ends_with_char d s = true →
  ends_with_char d (PyStr.lstrip_by p s) = true.
Proof.
  intros Hd. induction s as [|c s IH]; [done|]. intros H.
  cbn [PyStr.lstrip_by]. destruct (p c) eqn:Ec; [|done].
  apply IH. destruct s; [|done]. simpl in H.
  apply Ascii.eqb_eq in H. congruence.
Qed.

Lemma ends_with_rstrip p d s :
  p d = false → ends_with_char d s = true →
  PyStr.rstrip_by p s = s.
Proof.
  intros Hd. induction s as [|c s IH]; [done|]. intros H.
  cbn [PyStr.rstrip_by]. destruct s as [|c' s].
  - simpl in *. apply Ascii.eqb_eq in H. subst. by rewrite Hd.
  - rewrite IH by done. done.
Qed.

Lemma ends_with_strip p d s :
  p d = false → ends_with_char d s = true →
  ends_with_char d (PyStr.strip_by p s) = true.
Proof.
  intros Hd H. unfold PyStr.strip_by.
  rewrite (ends_with_rstrip p d); [by apply ends_with_lstrip | done |].
  by apply ends_with_lstrip.
Qed.

Lemma proportionate_share_group :
  groups_read IGNORECASE
    (λ a, all_chars share_char a = true ∧ ends_with_char PERCENT a = true)
    proportionate_share_pat.
Proof.
  simpl. split_and!; try exact I.
  eapply reads_only_impl;
    [|apply reads_only_cat; [apply m_consumes|];
      apply reads_only_cat; [apply m_consumes|];
      apply reads_only_cat; [apply m_consumes|];
      apply reads_only_cat; [apply reads_only_lit | apply reads_only_eps]].
  simpl.
  intros a (a1 & b1 & -> & H1 & a2 & b2 & -> & H2 & a3 & b3 & -> & H3
            & a4 & b4 & -> & [H4 Hl] & ->).
  apply percent_only in H4 as ->; [|done].
  split.
  - rewrite !all_chars_app. repeat (apply andb_true_iff; split); try done.
    + eapply all_chars_impl; [|exact H1]. by_cases_on_char.
    + eapply all_chars_impl; [|exact H2]. by_cases_on_char.
    + eapply all_chars_impl; [|exact H3]. by_cases_on_char.
  - rewrite <- !app_assoc_str, app_nil_r_str.
    apply (ends_with_char_app PERCENT).
Qed.

Lemma capture_share text :
  when_present share_shape (capture proportionate_share_pat text) = true.
Proof.
  destruct (capture proportionate_share_pat text) as [v|] eqn:E; [|done].
  simpl.
  apply (capture_group_is _ _ _ _ proportionate_share_group) in E
    as (a & [Ha He] & ->).
  unfold share_shape, PyStr.strip.
  rewrite all_chars_strip by done. by rewrite ends_with_strip.
Qed.

End Share.

Ltac open_record parse text rec :=
  let a := fresh "address" in
  let s := fresh "suite" in
  let Ha := fresh "Haddress" in
  destruct (extract_address_and_suite_ok text) as (a & s & Ha);
  destruct (extract_fields parse text a s Ha)
    as (rec & ? & ? & ? & ? & ? & ? & ? & ? & ? & ? & ? & ? & ?).

Ltac field rec key :=
  match goal with
  | H : rec !! key = Some _ |- _ => rewrite (get_lookup rec key _ H)
  end.

Lemma combined_addr_single_line a s :
  when_present (all_chars not_LF) a = true →
  when_present (all_chars not_LF) s = true →
  when_present (all_chars not_LF) (combined_addr a s) = true.
Proof.
  intros Ha Hs. unfold combined_addr.
  destruct (PyStr.truthy a && PyStr.truthy s) eqn:E.
  - destruct a as [a|], s as [s|]; try done.
    + cbn [when_present str_of default from_option id] in *.
      by rewrite !all_chars_app, Ha, Hs.
    + by rewrite andb_false_r in E.
  - destruct (PyStr.truthy a); [done|].
    destruct (PyStr.truthy s); [|done].
    destruct s as [s|]; cbn [when_present str_of default from_option id] in *;
      by rewrite all_chars_app, ?Hs.
Qed.

(** X1.  The names of the tenant and of the landlord that the extraction returns
    are single lines with no blank at either end (or missing). *)
Theorem party_names_trimmed (parse : string → res Date.datetime) text :
  ∃ rec,
    _extract_lease_facts_from_text parse text = Ok rec
    ∧ when_present trimmed_line (get rec "tenant_name") = true
    ∧ when_present trimmed_line (get rec "landlord_name") = true.
Proof.
  open_record parse text rec. exists rec. split; [done|].
  field rec "tenant_name". field rec "landlord_name".
  split; apply capture_trimmed_line; [apply tenant_group | apply landlord_group].
Qed.

(** X2.  The address that the extraction returns holds no line feed; the suite
    is a non-empty run of word characters and hyphens; and the combined field
    holds no line feed either. *)
Theorem address_and_suite_shape (parse : string → res Date.datetime) text :
  ∃ rec,
    _extract_lease_facts_from_text parse text = Ok rec
    ∧ when_present (all_chars not_LF) (get rec "property_address") = true
    ∧ when_present suite_shape (get rec "suite") = true
    ∧ when_present (all_chars not_LF)
        (get rec "property_address_and_suite") = true.
Proof.
  open_record parse text rec. exists rec. split; [done|].
  field rec "property_address". field rec "suite".
  field rec "property_address_and_suite".
  destruct (extract_address_and_suite_shape _ _ _ Haddress) as [Ha Hs].
  split_and!; [done | done |].
  apply combined_addr_single_line; [done|].
  destruct suite as [v|]; [|done]. simpl in *.
  apply andb_true_iff in Hs as [_ Hs].
  eapply all_chars_impl; [|exact Hs]. by_cases_on_char.
Qed.

(** X3.  The square footage that the extraction returns holds digits and decimal
    points only, the separators of thousands removed; the base year is four
    digits. *)
Theorem numeric_fields_shape (parse : string → res Date.datetime) text :
  ∃ rec,
    _extract_lease_facts_from_text parse text = Ok rec
    ∧ when_present numeric_only (get rec "total_square_feet") = true
    ∧ when_present four_digits_shape (get rec "base_year") = true.
Proof.
  open_record parse text rec. exists rec. split; [done|].
  field rec "total_square_feet". field rec "base_year".
  split; [apply square_feet_numeric | apply capture_base_year].
Qed.

(** X4.  The two dates that the extraction returns are missing or dates as
    [strftime] prints them, whatever the date parser answers: two digits
    for the day, two for the month and one to four for the year, which
    read as a date of the calendar.  The text that a date pattern captures
    is never returned as it is. *)
Theorem date_fields_printed (parse : string → res Date.datetime) text :
  ∃ rec,
    _extract_lease_facts_from_text parse text = Ok rec
    ∧ when_present printed_date (get rec "lease_commencement_date") = true
    ∧ when_present printed_date (get rec "lease_expiration_date") = true.
Proof.
  open_record parse text rec. exists rec. split; [done|].
  field rec "lease_commencement_date". field rec "lease_expiration_date".
  split; apply date_of_printed.
Qed.

(** X5.  The proportionate share that the extraction returns ends in a percent
    sign and holds digits, decimal points, blanks and percent signs only. *)
Theorem proportionate_share_shape (parse : string → res Date.datetime) text :
  ∃ rec,
    _extract_lease_facts_from_text parse text = Ok rec
    ∧ when_present share_shape (get rec "proportionate_share") = true.
Proof.
  open_record parse text rec. exists rec. split; [done|].
  field rec "proportionate_share". apply capture_share.
Qed.

(** X6.  The security deposit that the extraction returns is the word [None] or
    a non-empty run of digits, commas and decimal points: the commas of the
    amount are kept. *)
Theorem security_deposit_shape (parse : string → res Date.datetime) text :
  ∃ rec,
    _extract_lease_facts_from_text parse text = Ok rec
    ∧ when_present deposit_shape (get rec "security_deposit") = true.
Proof.
  open_record parse text rec. exists rec. split; [done|].
  field rec "security_deposit". apply deposit_of_shape.
Qed.


(** ** The merger and the formatter together *)

Section Algebra.

Implicit Types p q r : gmap string (option string).

Lemma or_assoc (a b c : option string) :
  PyStr.or_ (PyStr.or_ a b) c = PyStr.or_ a (PyStr.or_ b c).
Proof.
  unfold PyStr.or_. destruct (PyStr.truthy a) eqn:Ea; [by rewrite Ea|].
  by destruct (PyStr.truthy b) eqn:Eb; rewrite ?Eb.
Qed.

Lemma blank_or (a b : option string) :
  blank_to_none (PyStr.or_ a b)
  = PyStr.or_ (blank_to_none a) (blank_to_none b).
Proof. by destruct a as [[|? ?]|], b as [[|? ?]|]. Qed.

(** X7.  Merging is associative: three records merged in a chain give the same
    record however the chain is bracketed, so the priority of the sources is
    their order. *)
Theorem merge_facts_assoc p q r :
  _merge_facts (_merge_facts p q) r = _merge_facts p (_merge_facts q r).
Proof.
  apply map_eq. intros k. rewrite !merge_lookup.
  case_decide as Hk; [|done].
  by rewrite !get_merge, or_assoc by done.
Qed.

(** X8.  Formatting the merged record is merging the formatted records: the
    formatter can be applied before or after the merger. *)
Theorem format_merge_commute p q :
  _format_facts_output (_merge_facts p q)
  = _merge_facts (_format_facts_output p) (_format_facts_output q).
Proof.
  apply map_eq. intros k. rewrite format_lookup, merge_lookup.
  case_decide as Hk; [|done].
  by rewrite get_merge, !get_format, blank_or by done.
Qed.

Lemma get_empty k : get ∅ k = None.
Proof. unfold get. by rewrite lookup_empty. Qed.

Lemma format_merge_nothing p :
  _format_facts_output (_merge_facts p ∅) = _format_facts_output p.
Proof.
  apply map_eq. intros k. rewrite !format_lookup.
  case_decide as Hk; [|done]. rewrite get_merge, get_empty by done.
  f_equal. unfold PyStr.or_. by destruct (get p k) as [[|? ?]|].
Qed.

(** X9.  Merging with the empty record, on either side, changes nothing that the
    formatter keeps. *)
Theorem format_merge_empty p :
  _format_facts_output (_merge_facts p ∅) = _format_facts_output p
  ∧ _format_facts_output (_merge_facts ∅ p) = _format_facts_output p.
Proof.
  split; [apply format_merge_nothing|].
  apply map_eq. intros k. rewrite !format_lookup.
  case_decide as Hk; [|done]. by rewrite get_merge, get_empty by done.
Qed.

End Algebra.

(** ** Reading an upload *)

Section Uploads.

Lemma chunk_size_positive : (0 < CHUNK_SIZE_BYTES)%nat.
Proof. unfold CHUNK_SIZE_BYTES. lia. Qed.

Lemma take_drop_own_length {A} (n : nat) (l : list A) :
  take n l ++ drop (length (take n l)) l = l.
Proof.
  rewrite length_take. destruct (decide (n ≤ length l)%nat) as [Hn|Hn].
  - rewrite Nat.min_l by done. apply take_drop.
  - rewrite Nat.min_r by lia. rewrite take_ge by lia.
    rewrite drop_all. apply app_nil_r.
Qed.

(** The loop copies what is left of the file, whatever the chunk size. *)
Lemma write_chunks_all :
  ∀ fuel file written total,
    (length (body file) - position file < fuel)%nat →
    write_chunks fuel file written total
    = Some (written ++ drop (position file) (body file),
            (total + (length (body file) - position file))%nat).
Proof.
  pose proof chunk_size_positive as Hpos.
  induction fuel as [|fuel IH]; intros file written total Hfuel.
  { exfalso. lia. }
  cbn [write_chunks read]. generalize dependent CHUNK_SIZE_BYTES.
  intros size Hsize.
  pose proof (take_drop_own_length size (drop (position file) (body file)))
    as Hsplit.
  destruct (take size (drop (position file) (body file))) as [|b chunk] eqn:E.
  - clear Hsplit.
    destruct (drop (position file) (body file)) as [|b rest] eqn:Hrest.
    + rewrite app_nil_r. do 2 f_equal.
      apply (f_equal length) in Hrest. rewrite length_drop in Hrest.
      simpl in Hrest. lia.
    + destruct size; [lia | simpl in E; discriminate].
  - rewrite drop_drop in Hsplit.
    assert (length (b :: chunk) ≤ length (body file) - position file)%nat
      as Hlen.
    { rewrite <- E, length_take, length_drop. lia. }
    rewrite IH; cbn [body position].
    + rewrite <- app_assoc, Hsplit. do 2 f_equal. lia.
    + simpl in Hlen |- *. lia.
Qed.

Lemma startswith_spec b prefix :
  startswith b prefix = true ↔ ∃ rest, b = prefix ++ rest.
Proof.
  revert b. induction prefix as [|p prefix IH]; intros [|c b]; simpl.
  - split; [by exists [] | done].
  - split; [by exists (c :: b) | done].
  - split; [done | by intros [? ?]].
  - rewrite andb_true_iff, IH. split.
    + intros [Hc [rest ->]]. apply byte_dec_bl in Hc as ->. by exists rest.
    + intros [rest [= -> ->]]. split; [by apply byte_dec_lb | by exists rest].
Qed.

Lemma startswith_take b prefix :
  startswith (take (length prefix) b) prefix = startswith b prefix.
Proof.
  revert b. induction prefix as [|p prefix IH]; intros [|c b]; simpl;
    try done.
  by rewrite IH.
Qed.

End Uploads.

(** X10.  [is_probably_pdf]: true exactly of the byte strings that begin with
    the five bytes of the magic number; the five bytes that the handler peeks
    decide as the whole content does. *)
Theorem is_probably_pdf_spec (content : list byte) :
  (is_probably_pdf content = true ↔ ∃ rest, content = PDF_MAGIC ++ rest)
  ∧ is_probably_pdf (take 5 content) = is_probably_pdf content
  ∧ ((length content < 5)%nat → is_probably_pdf content = false).
Proof.
  split_and!.
  - apply startswith_spec.
  - apply (startswith_take content PDF_MAGIC).
  - intros Hlen. destruct (is_probably_pdf content) eqn:E; [|done].
    apply startswith_spec in E as [rest ->].
    rewrite List.length_app in Hlen. simpl in Hlen. lia.
Qed.

(** ** Suffixes, slices and occurrences *)

Section Strings.

Lemma substring_all s : String.substring 0 (String.length s) s = s.
Proof. induction s as [|c s IH]; simpl; [done|]. by rewrite IH. Qed.

Lemma substring_skip a s k :
  String.substring (String.length a) k (a +:+ s) = String.substring 0 k s.
Proof. induction a as [|c a IH]; simpl; done. Qed.

Lemma substring_split n s :
  (n ≤ String.length s)%nat →
  String.substring 0 n s +:+ String.substring n (String.length s - n) s = s.
Proof.
  revert s. induction n as [|n IH]; intros s Hn.
  - rewrite Nat.sub_0_r, substring_all. by destruct s.
  - destruct s as [|c s]; simpl in Hn; [lia|].
    change (String c (String.substring 0 n s
                      +:+ String.substring n (String.length s - n) s)
            = String c s).
    f_equal. apply IH. lia.
Qed.

Lemma endswith_spec s suffix :
  endswith s suffix = true ↔ ∃ stem, s = stem +:+ suffix.
Proof.
  unfold endswith. rewrite andb_true_iff, Nat.leb_le, String.eqb_eq. split.
  - intros [Hk Hs].
    exists (String.substring 0 (String.length s - String.length suffix) s).
    pose proof (substring_split (String.length s - String.length suffix) s)
      as H.
    replace (String.length s - (String.length s - String.length suffix))%nat
      with (String.length suffix) in H by lia.
    rewrite Hs in H. symmetry. apply H. lia.
  - intros [stem ->]. rewrite length_app. split; [lia|].
    replace (String.length stem + String.length suffix - String.length suffix)%nat
      with (String.length stem) by lia.
    rewrite substring_skip. apply substring_all.
Qed.

Lemma looks_like_pdf_spec name ctype :
  looks_like_pdf name ctype = true
  ↔ (∃ stem, lower name = stem +:+ ".pdf") ∨ ctype = "application/pdf".
Proof.
  unfold looks_like_pdf. by rewrite orb_true_iff, endswith_spec, String.eqb_eq.
Qed.

Lemma slice_to_app n t extra :
  (n ≤ String.length t)%nat → slice_to n (t +:+ extra) = slice_to n t.
Proof.
  revert t. induction n as [|n IH]; intros t Hn; [by destruct t|].
  destruct t as [|c t]; simpl in Hn; [lia|].
  change (String c (slice_to n (t +:+ extra)) = String c (slice_to n t)).
  f_equal. apply IH. lia.
Qed.

Lemma slice_to_all n t : (String.length t ≤ n)%nat → slice_to n t = t.
Proof.
  revert t. induction n as [|n IH]; intros [|c t] Hn; simpl in *;
    try done; try lia.
  f_equal. apply IH. lia.
Qed.

Lemma slice_to_length n t :
  String.length (slice_to n t) = Nat.min n (String.length t).
Proof.
  revert t. induction n as [|n IH]; intros [|c t]; simpl; try done.
  by rewrite IH.
Qed.

Lemma has_prefix_app a s : has_prefix a (a +:+ s) = true.
Proof.
  induction a as [|c a IH]; [by destruct s|].
  change (Ascii.eqb c c && has_prefix a (a +:+ s) = true).
  by rewrite Ascii.eqb_refl, IH.
Qed.

Lemma has_prefix_spec a s : has_prefix a s = true ↔ ∃ rest, s = a +:+ rest.
Proof.
  split; [|intros [rest ->]; apply has_prefix_app].
  revert s. induction a as [|c a IH]; intros s; [by exists s|].
  destruct s as [|d s]; simpl; [done|].
  rewrite andb_true_iff, Ascii.eqb_eq. intros [-> H].
  destruct (IH _ H) as [rest ->]. by exists rest.
Qed.

Lemma occurs_spec a s :
  occurs a s = true ↔ ∃ before after, s = before +:+ a +:+ after.
Proof.
  induction s as [|c s IH]; cbn [occurs]; rewrite orb_true_iff.
  - rewrite has_prefix_spec. split.
    + intros [[rest ->]|]; [by exists EmptyString, rest | done].
    + intros ([|d before] & after & H); [|done].
      left. by exists after.
  - rewrite IH, has_prefix_spec. split.
    + intros [[rest ->]|(before & after & ->)].
      * by exists EmptyString, rest.
      * by exists (String c before), after.
    + intros ([|d before] & after & H).
      * left. by exists after.
      * right. injection H as -> ->. by exists before, after.
Qed.

End Strings.

(** ** [upload_pdf] *)

Section UploadPdf.

Lemma rejected_iff name ctype :
  negb (endswith (lower name) ".pdf")
  && negb (String.eqb ctype "application/pdf")
  = negb (looks_like_pdf name ctype).
Proof. unfold looks_like_pdf. by rewrite negb_orb. Qed.

Lemma looks_like_pdf_false name ctype :
  looks_like_pdf name ctype = false
  ↔ (∀ stem, lower name ≠ stem +:+ ".pdf") ∧ ctype ≠ "application/pdf".
Proof.
  rewrite <- not_true_iff_false, looks_like_pdf_spec. split.
  - intros H. split; [intros stem E | intros E]; apply H; eauto.
  - intros [H1 H2] [[stem E]|E]; [by apply (H1 stem) | done].
Qed.

Lemma upload_pdf_accepted tn fuel file :
  looks_like_pdf (or_default (filename file) "uploaded.pdf")
                 (or_default (content_type file) EmptyString) = true →
  upload_pdf tn fuel (Some file)
  = '(written, total_bytes) ← write_chunks fuel (seek file 0) [] 0%nat;
    Some (Returned
            ({| message := "PDF uploaded successfully";
                original_filename := or_default (filename file) "uploaded.pdf";
                receipt_content_type := or_default (content_type file) EmptyString;
                size_bytes := total_bytes;
                saved_path :=
                  tn (if endswith
                           (lower (or_default (filename file) "uploaded.pdf"))
                           ".pdf"
                      then EmptyString else ".pdf") |},
             written)).
Proof.
  intros H. unfold upload_pdf. rewrite rejected_iff, H. cbn [negb read seek].
  destruct (negb (is_probably_pdf _));
    by destruct (endswith _ ".pdf").
Qed.

End UploadPdf.

(** X11.  [upload_pdf] answers 400 with the message about the type exactly when
    the name of the file does not end in [.pdf], in any case of the letters, and
    the declared type is not [application/pdf]; it raises nothing else for a
    file that is present. An upload without a name is taken to be [uploaded.pdf]
    and is never refused. *)
Theorem upload_pdf_rejection (temporary_name : string → string) (fuel : nat)
    (file : UploadFile) (status : nat) (detail : string) :
  (upload_pdf temporary_name fuel (Some file)
   = Some (HTTPException status detail)
   ↔ status = 400%nat ∧ detail = NOT_A_PDF
     ∧ (∀ stem, lower (or_default (filename file) "uploaded.pdf")
                ≠ stem +:+ ".pdf")
     ∧ or_default (content_type file) EmptyString ≠ "application/pdf")
  ∧ (PyStr.truthy (filename file) = false →
     upload_pdf temporary_name fuel (Some file)
     ≠ Some (HTTPException status detail)).
Proof.
  assert (upload_pdf temporary_name fuel (Some file)
          = Some (HTTPException status detail)
          ↔ status = 400%nat ∧ detail = NOT_A_PDF
            ∧ (∀ stem, lower (or_default (filename file) "uploaded.pdf")
                       ≠ stem +:+ ".pdf")
            ∧ or_default (content_type file) EmptyString ≠ "application/pdf") as Hiff.
  { rewrite <- looks_like_pdf_false.
    destruct (looks_like_pdf _ _) eqn:E.
    - rewrite upload_pdf_accepted by done.
      destruct (write_chunks _ _ _ _) as [[written total]|]; simpl;
        split; try done; by intros (_ & _ & ?).
    - unfold upload_pdf. rewrite rejected_iff, E. simpl. split.
      + by intros [= <- <-].
      + by intros (-> & -> & _). }
  split; [exact Hiff|].
  intros Hname Hrej. apply Hiff in Hrej as (_ & _ & Hstem & _).
  apply (Hstem "uploaded"). by destruct (filename file) as [[|c name]|].
Qed.

(** X12.  An accepted upload is saved whole: the five bytes that are read to
    look for the magic number are read again after [seek(0)], the content is not
    required to start like a PDF, and the reported size is the length of the
    content. *)
Theorem upload_pdf_saves_body (temporary_name : string → string)
    (fuel : nat) (file : UploadFile) :
  looks_like_pdf (or_default (filename file) "uploaded.pdf")
                 (or_default (content_type file) EmptyString) = true →
  (length (body file) < fuel)%nat →
  ∃ r, upload_pdf temporary_name fuel (Some file)
       = Some (Returned (r, body file))
       ∧ size_bytes r = length (body file)
       ∧ original_filename r = or_default (filename file) "uploaded.pdf"
       ∧ receipt_content_type r = or_default (content_type file) EmptyString
       ∧ saved_path r
         = temporary_name
             (if endswith (lower (original_filename r)) ".pdf"
              then EmptyString else ".pdf").
Proof.
  intros Hpdf Hfuel. rewrite upload_pdf_accepted by done.
  rewrite write_chunks_all by (simpl; lia). simpl.
  eexists. split; [reflexivity|]. simpl. split_and!; try done. lia.
Qed.

Lemma upload_pdf_saves_body_witness :
  looks_like_pdf (or_default (filename sample_upload) "uploaded.pdf")
                 (or_default (content_type sample_upload) EmptyString) = true
  ∧ (length (body sample_upload) < 3)%nat
  ∧ ∃ r, upload_pdf sample_temporary_name 3 (Some sample_upload)
         = Some (Returned (r, [x68; x69]))
         ∧ size_bytes r = 2%nat
         ∧ saved_path r = "/tmp/tmpk3".
Proof.
  assert (looks_like_pdf (or_default (filename sample_upload) "uploaded.pdf")
            (or_default (content_type sample_upload) EmptyString) = true) as Hpdf
    by (vm_compute; reflexivity).
  assert (length (body sample_upload) < 3)%nat as Hfuel by (simpl; lia).
  split; [exact Hpdf|]. split; [exact Hfuel|].
  destruct (upload_pdf_saves_body sample_temporary_name 3 sample_upload
              Hpdf Hfuel) as (r & E & Hsize & Hname & _ & Hpath).
  exists r. split; [exact E|]. split; [exact Hsize|].
  rewrite Hpath, Hname. vm_compute. reflexivity.
Defined.

(** ** [_build_llm_prompt] *)

Section Prompt.

Lemma repeated_length n c : String.length (repeated n c) = n.
Proof. induction n as [|n IH]; simpl; [done|]. by rewrite IH. Qed.

End Prompt.

(** X13.  [_build_llm_prompt] sends the first 12000 characters of the document
    and nothing after them: a text of at most 12000 characters is in the prompt
    entire, and what follows the 12000th character of a longer text does not
    change the prompt. *)
Theorem build_llm_prompt_truncates (text : string) :
  ((String.length text ≤ PROMPT_TEXT_LIMIT)%nat →
   _build_llm_prompt text = PROMPT_HEAD +:+ text)
  ∧ ((PROMPT_TEXT_LIMIT ≤ String.length text)%nat →
     ∀ extra, _build_llm_prompt (text +:+ extra) = _build_llm_prompt text)
  ∧ String.length (_build_llm_prompt text)
    = (String.length PROMPT_HEAD
       + Nat.min PROMPT_TEXT_LIMIT (String.length text))%nat.
Proof.
  unfold _build_llm_prompt. split_and!.
  - intros H. by rewrite slice_to_all.
  - intros H extra. by rewrite slice_to_app.
  - by rewrite length_app, slice_to_length.
Qed.

Lemma build_llm_prompt_truncates_witness :
  (String.length "Tenant: Acme Corp" ≤ PROMPT_TEXT_LIMIT)%nat
  ∧ _build_llm_prompt "Tenant: Acme Corp" = PROMPT_HEAD +:+ "Tenant: Acme Corp"
  ∧ (PROMPT_TEXT_LIMIT ≤ String.length (repeated PROMPT_TEXT_LIMIT "x"))%nat
  ∧ _build_llm_prompt (repeated PROMPT_TEXT_LIMIT "x" +:+ "Tenant: Acme Corp")
    = _build_llm_prompt (repeated PROMPT_TEXT_LIMIT "x").
Proof.
  assert (String.length "Tenant: Acme Corp" ≤ PROMPT_TEXT_LIMIT)%nat as Hshort
    by (vm_compute; lia).
  assert (PROMPT_TEXT_LIMIT ≤ String.length (repeated PROMPT_TEXT_LIMIT "x"))%nat as Hlong
    by (rewrite repeated_length; lia).
  split; [exact Hshort|].
  split; [exact (proj1 (build_llm_prompt_truncates _) Hshort)|].
  split; [exact Hlong|].
  exact (proj1 (proj2 (build_llm_prompt_truncates _)) Hlong _).
Defined.

(** X14.  The prompt asks for the keys of [LEASE_FACTS_SCHEMA], all eleven, by
    their names and in the order of the schema, whatever the document. *)
Theorem build_llm_prompt_names_schema_keys (text : string) :
  occurs ("with these exact keys: " +:+ comma_joined LEASE_KEYS +:+ "."
          +:+ NL)
         (_build_llm_prompt text) = true
  ∧ Forall (λ key, occurs key (_build_llm_prompt text) = true) LEASE_KEYS.
Proof.
  assert (∀ needle, occurs needle PROMPT_HEAD = true →
                    occurs needle (_build_llm_prompt text) = true) as Hhead.
  { intros needle. rewrite !occurs_spec. intros (before & after & E).
    exists before, (after +:+ slice_to PROMPT_TEXT_LIMIT text).
    unfold _build_llm_prompt. by rewrite E, !app_assoc_str. }
  split; [apply Hhead; vm_compute; reflexivity|].
  repeat constructor; apply Hhead; vm_compute; reflexivity.
Qed.

(** ** [_call_openai_json] *)

Section Calls.

Implicit Types facts : gmap string (option string).

Lemma format_idemp facts :
  _format_facts_output (_format_facts_output facts)
  = _format_facts_output facts.
Proof.
  apply map_eq. intros k. rewrite !format_lookup.
  case_decide as Hk; [|done].
  by rewrite get_format, blank_to_none_idemp by done.
Qed.

Lemma format_empty : _format_facts_output ∅ = LEASE_FACTS_SCHEMA.
Proof.
  apply map_eq. intros k. rewrite format_lookup, get_empty.
  case_decide as Hk.
  - by rewrite schema_lookup_key.
  - by rewrite schema_lookup_other.
Qed.

(** The formatter leaves no empty string. *)
Lemma format_never_blank facts k :
  _format_facts_output facts !! k ≠ Some (Some EmptyString).
Proof.
  rewrite format_lookup. case_decide; [|done].
  by destruct (get facts k) as [[|c s]|].
Qed.

Variable sdk_available : bool.
Variable chat_completion : nat → string → string → attempt (option string).
Variable json_loads : string → option (gmap string (option string)).

Lemma call_once_formatted n prompt model facts :
  call_once sdk_available chat_completion json_loads n prompt model
  = Done facts →
  _format_facts_output facts = facts.
Proof.
  unfold call_once. destruct (negb sdk_available); [done|].
  destruct (chat_completion n model prompt) as [content|e]; [|done].
  destruct (json_loads _) as [raw|]; intros [= <-].
  - apply format_idemp.
  - by rewrite <- format_empty, format_idemp.
Qed.

Lemma retrying_outcomes left n prompt model :
  (∃ facts,
     retrying sdk_available chat_completion json_loads left n prompt model
     = Done facts
     ∧ _format_facts_output facts = facts)
  ∨ retrying sdk_available chat_completion json_loads left n prompt model
    = Failed RetryError.
Proof.
  revert n. induction left as [|left IH]; intros n; simpl; [by right|].
  destruct (call_once _ _ _ n prompt model) as [facts|e] eqn:E; [|apply IH].
  left. exists facts. split; [done|]. by apply call_once_formatted in E.
Qed.

End Calls.

Section Attempts.

Variable sdk_available : bool.
Variables chat chat' : nat → string → string → attempt (option string).
Variable json_loads : string → option (gmap string (option string)).

Lemma retrying_agree left n prompt model :
  (∀ i, (n ≤ i < n + left)%nat → chat i model prompt = chat' i model prompt) →
  retrying sdk_available chat json_loads left n prompt model
  = retrying sdk_available chat' json_loads left n prompt model.
Proof.
  revert n. induction left as [|left IH]; intros n H; simpl; [done|].
  unfold call_once. rewrite <- (H n) by lia.
  rewrite IH; [done|]. intros i Hi. apply H. lia.
Qed.

End Attempts.

Lemma call_openai_json_formatted (sdk_available : bool)
    (chat_completion : nat → string → string → attempt (option string))
    (json_loads : string → option (gmap string (option string)))
    (prompt : string) :
  (∃ facts,
     _call_openai_json sdk_available chat_completion json_loads prompt
     = Done facts
     ∧ _format_facts_output facts = facts)
  ∨ _call_openai_json sdk_available chat_completion json_loads prompt
    = Failed RetryError.
Proof. apply retrying_outcomes. Qed.

(** X15.  [_call_openai_json] returns a record in the format of the
    service, with the eleven keys, none of them bound to the empty string,
    and which the formatter leaves as it is; or it fails with the
    [RetryError] of the decorator: the error of the client does not come
    through.  Without the SDK it fails in this way, whatever the client
    would have answered. *)
Theorem call_openai_json_outcomes (sdk_available : bool)
    (chat_completion : nat → string → string → attempt (option string))
    (json_loads : string → option (gmap string (option string)))
    (prompt : string) :
  ((∃ facts,
      _call_openai_json sdk_available chat_completion json_loads prompt
      = Done facts
      ∧ dom facts = list_to_set LEASE_KEYS
      ∧ _format_facts_output facts = facts
      ∧ ∀ k, facts !! k ≠ Some (Some EmptyString))
   ∨ _call_openai_json sdk_available chat_completion json_loads prompt
     = Failed RetryError)
  ∧ _call_openai_json false chat_completion json_loads prompt
    = Failed RetryError.
Proof.
  split; [|reflexivity]. unfold _call_openai_json.
  destruct (retrying_outcomes sdk_available chat_completion json_loads
              3 0 prompt "gpt-4o-mini") as [(facts & E & Hf)|E];
    [left | by right].
  exists facts. split; [done|]. split; [by rewrite <- Hf, format_dom|].
  split; [done|]. intros k. rewrite <- Hf. apply format_never_blank.
Qed.

(** X16.  The call of the model is attempted three times at most: what the
    client would answer from the fourth attempt on has no effect on the result. *)
Theorem call_openai_json_three_attempts (sdk_available : bool)
    (chat chat' : nat → string → string → attempt (option string))
    (json_loads : string → option (gmap string (option string)))
    (prompt : string) :
  (∀ n, (n < 3)%nat →
        chat n "gpt-4o-mini" prompt = chat' n "gpt-4o-mini" prompt) →
  _call_openai_json sdk_available chat json_loads prompt
  = _call_openai_json sdk_available chat' json_loads prompt.
Proof.
  intros H. apply retrying_agree. intros i Hi. apply H. lia.
Qed.

Lemma call_openai_json_three_attempts_witness :
  (∀ n, (n < 3)%nat →
        failing_client n "gpt-4o-mini" "Lease Text:"
        = late_client n "gpt-4o-mini" "Lease Text:")
  ∧ _call_openai_json true failing_client no_json "Lease Text:"
    = _call_openai_json true late_client no_json "Lease Text:".
Proof.
  assert (∀ n, (n < 3)%nat →
               failing_client n "gpt-4o-mini" "Lease Text:"
               = late_client n "gpt-4o-mini" "Lease Text:") as H.
  { intros [|[|[|n]]] Hn; try reflexivity. lia. }
  split; [exact H|].
  exact (call_openai_json_three_attempts true failing_client late_client
           no_json "Lease Text:" H).
Defined.

(** X17.  The first attempt that the client answers ends the call, also when the
    answer is not a JSON object: the record is then the schema with every value
    missing, and the call is not made again. *)
Theorem call_openai_json_first_answer
    (chat_completion : nat → string → string → attempt (option string))
    (json_loads : string → option (gmap string (option string)))
    (prompt : string) (n : nat) (content : option string) :
  (n < 3)%nat →
  (∀ i, (i < n)%nat → ∃ e, chat_completion i "gpt-4o-mini" prompt = Failed e) →
  chat_completion n "gpt-4o-mini" prompt = Done content →
  _call_openai_json true chat_completion json_loads prompt
  = Done (match json_loads (or_default content "{}") with
          | Some raw => _format_facts_output raw
          | None => LEASE_FACTS_SCHEMA
          end).
Proof.
  intros Hn Hfail Hdone. unfold _call_openai_json.
  assert (∀ left m, (m ≤ n < m + left)%nat →
            retrying true chat_completion json_loads left m prompt
              "gpt-4o-mini"
            = Done (match json_loads (or_default content "{}") with
                    | Some raw => _format_facts_output raw
                    | None => LEASE_FACTS_SCHEMA
                    end)) as H.
  { induction left as [|left IH]; intros m Hm; [lia|].
    simpl. unfold call_once. simpl.
    destruct (decide (m = n)) as [->|Hne].
    - rewrite Hdone. by destruct (json_loads _).
    - destruct (Hfail m) as [e ->]; [lia|]. apply IH. lia. }
  apply H. lia.
Qed.

Lemma call_openai_json_first_answer_witness :
  (1 < 3)%nat
  ∧ (∀ i, (i < 1)%nat →
          ∃ e, second_time_client i "gpt-4o-mini" "Lease Text:" = Failed e)
  ∧ second_time_client 1 "gpt-4o-mini" "Lease Text:" = Done (Some "[]")
  ∧ _call_openai_json true second_time_client no_json "Lease Text:"
    = Done LEASE_FACTS_SCHEMA.
Proof.
  assert (1 < 3)%nat as Hn by lia.
  assert (∀ i, (i < 1)%nat →
               ∃ e, second_time_client i "gpt-4o-mini" "Lease Text:"
                    = Failed e) as Hfail.
  { intros [|i] Hi; [by exists (APIError "timeout") | lia]. }
  assert (second_time_client 1 "gpt-4o-mini" "Lease Text:" = Done (Some "[]"))
    as Hdone by reflexivity.
  split; [exact Hn|]. split; [exact Hfail|]. split; [exact Hdone|].
  exact (call_openai_json_first_answer second_time_client no_json
           "Lease Text:" 1 (Some "[]") Hn Hfail Hdone).
Defined.

(** ** [extract_lease_facts] *)

Section Endpoint.

Variable sdk_available : bool.
Variable chat_completion : nat → string → string → attempt (option string).
Variable json_loads : string → option (gmap string (option string)).
Variable extract_text : list byte → string + option string.
Variable api_key : option string.
Variable parse : string → res Date.datetime.

Lemma extract_lease_facts_accepted fuel file :
  looks_like_pdf (or_default (filename file) "lease.pdf")
                 (or_default (content_type file) EmptyString) = true →
  (length (body file) - position file < fuel)%nat →
  extract_lease_facts sdk_available chat_completion json_loads extract_text
    api_key parse fuel (Some file)
  = match extract_text (drop (position file) (body file)) with
    | inl exc => Some (HTTPException 500 ("Failed to read PDF: " +:+ exc))
    | inr text =>
        match extract_lease_facts_core parse (or_default text EmptyString)
                (llm_facts_of sdk_available chat_completion json_loads
                   api_key (or_default text EmptyString)) with
        | Raise e => Some (Unhandled e)
        | Ok facts => Some (Returned facts)
        end
    end.
Proof.
  intros Hpdf Hfuel. unfold extract_lease_facts.
  rewrite rejected_iff, Hpdf, write_chunks_all by done.
  cbn [negb mbind option_bind app].
  destruct (extract_text _) as [exc|text]; [done|].
  unfold extract_lease_facts_core, llm_facts_of.
  by destruct (_extract_lease_facts_from_text parse _).
Qed.

Lemma core_returns text llm :
  ∃ rec, _extract_lease_facts_from_text parse text = Ok rec
         ∧ dom rec = list_to_set LEASE_KEYS
         ∧ extract_lease_facts_core parse text llm
           = Ok (_format_facts_output (_merge_facts rec llm)).
Proof.
  destruct (extract_address_and_suite_ok text) as (a & s & Ha).
  destruct (extract_fields parse text a s Ha) as (rec & E & Hdom & _).
  exists rec. split; [done|]. split; [done|].
  unfold extract_lease_facts_core. by rewrite E.
Qed.

End Endpoint.



(** X19.  A value that the patterns find is the value of the response: the model
    cannot replace it, whatever it answers. *)
Theorem extract_lease_facts_regex_first (sdk_available : bool)
    (chat_completion : nat → string → string → attempt (option string))
    (json_loads : string → option (gmap string (option string)))
    (extract_text : list byte → string + option string)
    (api_key : option string) (parse : string → res Date.datetime)
    (fuel : nat) (file : UploadFile) (text : option string) :
  looks_like_pdf (or_default (filename file) "lease.pdf")
                 (or_default (content_type file) EmptyString) = true →
  (length (body file) - position file < fuel)%nat →
  extract_text (drop (position file) (body file)) = inr text →
  ∃ rec facts,
    _extract_lease_facts_from_text parse (or_default text EmptyString) = Ok rec
    ∧ extract_lease_facts sdk_available chat_completion json_loads
        extract_text api_key parse fuel (Some file) = Some (Returned facts)
    ∧ ∀ k v, rec !! k = Some (Some v) → v ≠ EmptyString →
             facts !! k = Some (Some v).
Proof.
  intros Hpdf Hfuel Hread.
  rewrite extract_lease_facts_accepted, Hread by done.
  destruct (core_returns parse (or_default text EmptyString)
              (llm_facts_of sdk_available chat_completion json_loads
                 api_key (or_default text EmptyString)))
    as (rec & E & Hdom & ->).
  exists rec, (_format_facts_output
                 (_merge_facts rec
                    (llm_facts_of sdk_available chat_completion json_loads
                       api_key (or_default text EmptyString)))).
  split; [done|]. split; [done|]. intros k v Hk Hv.
  assert (k ∈ LEASE_KEYS) as Hin.
  { apply (elem_of_list_to_set (C := gset string)). rewrite <- Hdom.
    by apply elem_of_dom_2 in Hk. }
  rewrite format_lookup, decide_True, get_merge by done.
  rewrite (get_lookup _ _ _ Hk). by destruct v.
Qed.

Lemma extract_lease_facts_regex_first_witness :
  looks_like_pdf (or_default (filename sample_lease_upload) "lease.pdf")
                 (or_default (content_type sample_lease_upload) EmptyString) = true
  ∧ (length (body sample_lease_upload) - position sample_lease_upload
     < 6)%nat
  ∧ text_reader (drop (position sample_lease_upload)
                   (body sample_lease_upload))
    = inr (Some "Tenant: Acme Corp")
  ∧ ∃ rec facts,
      _extract_lease_facts_from_text no_dates "Tenant: Acme Corp" = Ok rec
      ∧ extract_lease_facts true answering_client landlord_json text_reader
          (Some "sk-test") no_dates 6 (Some sample_lease_upload)
        = Some (Returned facts)
      ∧ ∀ k v, rec !! k = Some (Some v) → v ≠ EmptyString →
               facts !! k = Some (Some v).
Proof.
  assert (looks_like_pdf
            (or_default (filename sample_lease_upload) "lease.pdf")
            (or_default (content_type sample_lease_upload) EmptyString) = true)
    as Hpdf by (vm_compute; reflexivity).
  assert (length (body sample_lease_upload) - position sample_lease_upload
          < 6)%nat as Hfuel by (simpl; lia).
  assert (text_reader (drop (position sample_lease_upload)
                         (body sample_lease_upload))
          = inr (Some "Tenant: Acme Corp")) as Hread by reflexivity.
  split; [exact Hpdf|]. split; [exact Hfuel|]. split; [exact Hread|].
  exact (extract_lease_facts_regex_first true answering_client landlord_json
           text_reader (Some "sk-test") no_dates 6 sample_lease_upload
           (Some "Tenant: Acme Corp") Hpdf Hfuel Hread).
Defined.

(** X20.  Without an API key, or when the call of the model fails, the response
    is the formatted record of the patterns alone. *)
Theorem extract_lease_facts_without_model (sdk_available : bool)
    (chat_completion : nat → string → string → attempt (option string))
    (json_loads : string → option (gmap string (option string)))
    (extract_text : list byte → string + option string)
    (api_key : option string) (parse : string → res Date.datetime)
    (fuel : nat) (file : UploadFile) (text : option string) :
  looks_like_pdf (or_default (filename file) "lease.pdf")
                 (or_default (content_type file) EmptyString) = true →
  (length (body file) - position file < fuel)%nat →
  extract_text (drop (position file) (body file)) = inr text →
  PyStr.truthy api_key = false
  ∨ (∃ e, _call_openai_json sdk_available chat_completion json_loads
            (_build_llm_prompt (or_default text EmptyString)) = Failed e) →
  ∃ rec,
    _extract_lease_facts_from_text parse (or_default text EmptyString) = Ok rec
    ∧ extract_lease_facts sdk_available chat_completion json_loads
        extract_text api_key parse fuel (Some file)
      = Some (Returned (_format_facts_output rec)).
Proof.
  intros Hpdf Hfuel Hread Hno.
  rewrite extract_lease_facts_accepted, Hread by done.
  destruct (core_returns parse (or_default text EmptyString)
              (llm_facts_of sdk_available chat_completion json_loads
                 api_key (or_default text EmptyString)))
    as (rec & E & Hdom & ->).
  exists rec. split; [done|]. do 2 f_equal.
  assert (llm_facts_of sdk_available chat_completion json_loads api_key
            (or_default text EmptyString) = ∅) as ->.
  { unfold llm_facts_of. destruct Hno as [->|[e ->]]; [done|].
    by destruct (PyStr.truthy api_key). }
  apply format_merge_nothing.
Qed.

Lemma extract_lease_facts_without_model_witness :
  looks_like_pdf (or_default (filename sample_lease_upload) "lease.pdf")
                 (or_default (content_type sample_lease_upload) EmptyString) = true
  ∧ (length (body sample_lease_upload) - position sample_lease_upload
     < 6)%nat
  ∧ text_reader (drop (position sample_lease_upload)
                   (body sample_lease_upload))
    = inr (Some "Tenant: Acme Corp")
  ∧ (∃ e, _call_openai_json true failing_client landlord_json
            (_build_llm_prompt "Tenant: Acme Corp") = Failed e)
  ∧ ∃ rec,
      _extract_lease_facts_from_text no_dates "Tenant: Acme Corp" = Ok rec
      ∧ extract_lease_facts true failing_client landlord_json text_reader
          (Some "sk-test") no_dates 6 (Some sample_lease_upload)
        = Some (Returned (_format_facts_output rec)).
Proof.
  assert (looks_like_pdf
            (or_default (filename sample_lease_upload) "lease.pdf")
            (or_default (content_type sample_lease_upload) EmptyString) = true)
    as Hpdf by (vm_compute; reflexivity).
  assert (length (body sample_lease_upload) - position sample_lease_upload
          < 6)%nat as Hfuel by (simpl; lia).
  assert (text_reader (drop (position sample_lease_upload)
                         (body sample_lease_upload))
          = inr (Some "Tenant: Acme Corp")) as Hread by reflexivity.
  assert (∃ e, _call_openai_json true failing_client landlord_json
                 (_build_llm_prompt "Tenant: Acme Corp") = Failed e) as Hcall
    by (exists RetryError; reflexivity).
  split; [exact Hpdf|]. split; [exact Hfuel|]. split; [exact Hread|].
  split; [exact Hcall|].
  exact (extract_lease_facts_without_model true failing_client landlord_json
           text_reader (Some "sk-test") no_dates 6 sample_lease_upload
           (Some "Tenant: Acme Corp") Hpdf Hfuel Hread (or_intror Hcall)).
Defined.

(** X21.  The model fills the gaps and only them: for a key whose value the
    patterns leave missing or empty, the response has the value of the model's
    record. *)
Theorem extract_lease_facts_model_fills_gaps (sdk_available : bool)
    (chat_completion : nat → string → string → attempt (option string))
    (json_loads : string → option (gmap string (option string)))
    (extract_text : list byte → string + option string)
    (api_key : option string) (parse : string → res Date.datetime)
    (fuel : nat) (file : UploadFile) (text : option string)
    (llm_facts : gmap string (option string)) :
  looks_like_pdf (or_default (filename file) "lease.pdf")
                 (or_default (content_type file) EmptyString) = true →
  (length (body file) - position file < fuel)%nat →
  extract_text (drop (position file) (body file)) = inr text →
  PyStr.truthy api_key = true →
  _call_openai_json sdk_available chat_completion json_loads
    (_build_llm_prompt (or_default text EmptyString)) = Done llm_facts →
  ∃ rec facts,
    _extract_lease_facts_from_text parse (or_default text EmptyString) = Ok rec
    ∧ extract_lease_facts sdk_available chat_completion json_loads
        extract_text api_key parse fuel (Some file) = Some (Returned facts)
    ∧ ∀ k, k ∈ LEASE_KEYS → PyStr.truthy (get rec k) = false →
           facts !! k = llm_facts !! k.
Proof.
  intros Hpdf Hfuel Hread Hkey Hcall.
  rewrite extract_lease_facts_accepted, Hread by done.
  destruct (core_returns parse (or_default text EmptyString)
              (llm_facts_of sdk_available chat_completion json_loads
                 api_key (or_default text EmptyString)))
    as (rec & E & Hdom & ->).
  assert (llm_facts_of sdk_available chat_completion json_loads api_key
            (or_default text EmptyString) = llm_facts) as ->.
  { unfold llm_facts_of. by rewrite Hkey, Hcall. }
  exists rec, (_format_facts_output (_merge_facts rec llm_facts)).
  split; [done|]. split; [done|]. intros k Hk Hgap.
  assert (_format_facts_output llm_facts = llm_facts) as Hf.
  { destruct (call_openai_json_formatted sdk_available chat_completion
                json_loads (_build_llm_prompt (or_default text EmptyString)))
      as [(facts & E' & Hf)|E']; rewrite Hcall in E'; [|done].
    by injection E' as <-. }
  rewrite <- Hf at 2. rewrite !format_lookup, !decide_True by done.
  rewrite get_merge by done. f_equal. f_equal.
  unfold PyStr.or_. by rewrite Hgap.
Qed.

Lemma extract_lease_facts_model_fills_gaps_witness :
  looks_like_pdf (or_default (filename sample_lease_upload) "lease.pdf")
                 (or_default (content_type sample_lease_upload) EmptyString) = true
  ∧ (length (body sample_lease_upload) - position sample_lease_upload
     < 6)%nat
  ∧ text_reader (drop (position sample_lease_upload)
                   (body sample_lease_upload))
    = inr (Some "Tenant: Acme Corp")
  ∧ PyStr.truthy (Some "sk-test") = true
  ∧ _call_openai_json true answering_client landlord_json
      (_build_llm_prompt "Tenant: Acme Corp")
    = Done (_format_facts_output
              (list_to_map [("landlord_name", Some "Beta LLC");
                            ("tenant_name", Some "Gamma Inc")]))
  ∧ ∃ rec facts,
      _extract_lease_facts_from_text no_dates "Tenant: Acme Corp" = Ok rec
      ∧ extract_lease_facts true answering_client landlord_json text_reader
          (Some "sk-test") no_dates 6 (Some sample_lease_upload)
        = Some (Returned facts)
      ∧ ∀ k, k ∈ LEASE_KEYS → PyStr.truthy (get rec k) = false →
             facts !! k
             = _format_facts_output
                 (list_to_map [("landlord_name", Some "Beta LLC");
                               ("tenant_name", Some "Gamma Inc")]) !! k.
Proof.
  assert (looks_like_pdf
            (or_default (filename sample_lease_upload) "lease.pdf")
            (or_default (content_type sample_lease_upload) EmptyString) = true)
    as Hpdf by (vm_compute; reflexivity).
  assert (length (body sample_lease_upload) - position sample_lease_upload
          < 6)%nat as Hfuel by (simpl; lia).
  assert (text_reader (drop (position sample_lease_upload)
                         (body sample_lease_upload))
          = inr (Some "Tenant: Acme Corp")) as Hread by reflexivity.
  assert (PyStr.truthy (Some "sk-test") = true) as Hkey by reflexivity.
  assert (_call_openai_json true answering_client landlord_json
            (_build_llm_prompt "Tenant: Acme Corp")
          = Done (_format_facts_output
                    (list_to_map [("landlord_name", Some "Beta LLC");
                                  ("tenant_name", Some "Gamma Inc")])))
    as Hcall by reflexivity.
  split; [exact Hpdf|]. split; [exact Hfuel|]. split; [exact Hread|].
  split; [exact Hkey|]. split; [exact Hcall|].
  exact (extract_lease_facts_model_fills_gaps true answering_client
           landlord_json text_reader (Some "sk-test") no_dates 6
           sample_lease_upload (Some "Tenant: Acme Corp") _
           Hpdf Hfuel Hread Hkey Hcall).
Defined.

